(** * Building a CNN on MNIST: a shallow embedding of the notebook's pipeline

    The notebook [Building+a+CNN+-+MNIST.ipynb] samples 20k training images,
    reshapes them to [(N,28,28,1)], one-hot encodes the labels with
    [to_categorical], converts pixels to float32 and divides by 255, stacks a
    [Sequential] Keras model and calls [fit] and [evaluate].  The notebook
    delegates every step to numpy and Keras; the definitions below embed the
    behaviour of exactly the calls it makes, with the arguments it passes. *)

From Stdlib Require Import ZArith List Lia Bool QArith Permutation Lqa Qminmax Qabs.
Import ListNotations.

Open Scope Z_scope.

(* ================================================================== *)
(** ** Keras layers and their static shape inference *)

Module Shapes.

Inductive Padding := Valid | Same | Full.

Inductive Activation := Linear | Relu | Softmax.

(** [keras.utils.conv_utils.conv_output_length], used by the
    [compute_output_shape] of [Conv2D] and of [MaxPooling2D]:
<<
  dilated_filter_size = filter_size + (filter_size - 1) * (dilation - 1)
  if padding in ['same', 'causal']: output_length = input_length
  elif padding == 'valid': output_length = input_length - dilated_filter_size + 1
  elif padding == 'full':  output_length = input_length + dilated_filter_size - 1
  return (output_length + stride - 1) // stride
>>
    Python's [//] is floor division, i.e. [Z.div]. *)
Definition conv_output_length (input_length filter_size : Z) (padding : Padding)
  (stride dilation : Z) : Z :=
  let dilated_filter_size := filter_size + (filter_size - 1) * (dilation - 1) in
  let output_length :=
    match padding with
    | Same => input_length
    | Valid => input_length - dilated_filter_size + 1
    | Full => input_length + dilated_filter_size - 1
    end in
  (output_length + stride - 1) / stride.

(** The layer constructors the notebook uses, with their keyword arguments. *)
Inductive Layer :=
| Conv2D (filters : Z) (kernel_size : Z * Z) (strides : Z * Z) (padding : Padding)
    (activation : Activation)
| BatchNormalization
| MaxPooling2D (pool_size : Z * Z) (strides : option (Z * Z)) (padding : Padding)
| Flatten
| Dense (units : Z) (activation : Activation)
| Dropout (rate : Q).

(** Keyword defaults: [Conv2D(filters, kernel_size, strides=(1,1),
    padding='valid', activation=None)] and
    [MaxPooling2D(pool_size=(2,2), strides=None, padding='valid')]. *)
Definition conv2d (filters : Z) (k : Z * Z) (act : Activation) : Layer :=
  Conv2D filters k (1, 1) Valid act.

Definition maxpool2d (p : Z * Z) : Layer := MaxPooling2D p None Valid.

(** A shape is the list of non-batch dimensions; the batch axis is always
    [None] in a [Sequential] model and is left implicit. *)
Definition Shape := list Z.

Definition prod (s : Shape) : Z := fold_right Z.mul 1 s.

(** [compute_output_shape] of each layer; [None] is the [ValueError] Keras
    raises when the layer cannot be applied to the incoming shape (wrong
    rank from the [InputSpec], or a negative spatial dimension). *)
Definition compute_output_shape (l : Layer) (s : Shape) : option Shape :=
  match l with
  | Conv2D filters (kh, kw) (sh, sw) padding _ =>
      match s with
      | [rows; cols; _] =>
          let rows' := conv_output_length rows kh padding sh 1 in
          let cols' := conv_output_length cols kw padding sw 1 in
          if (rows' <? 0) || (cols' <? 0) then None
          else Some [rows'; cols'; filters]
      | _ => None
      end
  | BatchNormalization => Some s
  | MaxPooling2D (ph, pw) strides padding =>
      (* [if strides is None: strides = pool_size] *)
      let '(sh, sw) := match strides with Some st => st | None => (ph, pw) end in
      match s with
      | [rows; cols; ch] =>
          let rows' := conv_output_length rows ph padding sh 1 in
          let cols' := conv_output_length cols pw padding sw 1 in
          if (rows' <? 0) || (cols' <? 0) then None
          else Some [rows'; cols'; ch]
      | _ => None
      end
  | Flatten => Some [prod s]
  | Dense units _ =>
      (* [InputSpec(min_ndim=2)]; the kernel is built as [(last_dim, units)]
         from the incoming shape, and the last axis is replaced. *)
      match s with
      | [] => None
      | _ => Some (removelast s ++ [units])
      end
  | Dropout _ => Some s
  end.

(** [Sequential.add] builds each layer on the output shape of the previous
    one; the result is the list of output shapes, layer by layer. *)
Fixpoint build (layers : list Layer) (s : Shape) : option (list Shape) :=
  match layers with
  | [] => Some []
  | l :: rest =>
      match compute_output_shape l s with
      | None => None
      | Some s' =>
          match build rest s' with
          | None => None
          | Some trace => Some (s' :: trace)
          end
      end
  end.

Definition output_shape (layers : list Layer) (s : Shape) : option Shape :=
  match build layers s with
  | Some trace => Some (last trace s)
  | None => None
  end.

Definition img_rows : Z := 28.
Definition img_cols : Z := 28.
Definition input_shape : Shape := [img_rows; img_cols; 1].
Definition num_classes : Z := 10.

(** The model of the notebook's cell 19, layer by layer. *)
Definition model : list Layer :=
  [ conv2d 32 (3, 3) Relu;
    BatchNormalization;
    conv2d 64 (3, 3) Relu;
    BatchNormalization;
    maxpool2d (2, 2);
    conv2d 128 (3, 3) Relu;
    BatchNormalization;
    maxpool2d (2, 2);
    Flatten;
    Dense 128 Relu;
    Dropout (1 # 4);
    Dense num_classes Softmax ].

(** Variables created by [build] for one layer, as [model.summary()] counts
    them: (trainable, non-trainable).  [Conv2D] has a kernel
    [(kh, kw, in_channels, filters)] and a bias [(filters,)]; [Dense] a
    kernel [(last_dim, units)] and a bias [(units,)]; [BatchNormalization]
    trainable [gamma] and [beta] and non-trainable [moving_mean] and
    [moving_variance], one per channel of the last axis. *)
Definition layer_params (l : Layer) (s : Shape) : Z * Z :=
  let last_dim := last s 0 in
  match l with
  | Conv2D filters (kh, kw) _ _ _ => (kh * kw * last_dim * filters + filters, 0)
  | BatchNormalization => (2 * last_dim, 2 * last_dim)
  | Dense units _ => (last_dim * units + units, 0)
  | _ => (0, 0)
  end.

(** The rows of [model.summary()]: output shape and parameter counts of each
    layer, built on the previous layer's output shape. *)
Fixpoint summary (layers : list Layer) (s : Shape) : option (list (Shape * (Z * Z))) :=
  match layers with
  | [] => Some []
  | l :: rest =>
      match compute_output_shape l s with
      | None => None
      | Some s' =>
          match summary rest s' with
          | None => None
          | Some rows => Some ((s', layer_params l s) :: rows)
          end
      end
  end.

(** [Total params], [Trainable params] and [Non-trainable params]. *)
Definition totals (rows : list (Shape * (Z * Z))) : Z * Z * Z :=
  let tr := fold_right (fun r acc => fst (snd r) + acc) 0 rows in
  let ntr := fold_right (fun r acc => snd (snd r) + acc) 0 rows in
  (tr + ntr, tr, ntr).

End Shapes.

(* ================================================================== *)
(** ** Labels: [tf.keras.utils.to_categorical] and [argmax] *)

Module Labels.

(** numpy's index normalisation for [a[i]] on an axis of length [n]:
    negative indices count from the end, anything else out of
    [[-n, n)] raises [IndexError]. *)
Definition np_index (n : nat) (i : Z) : option nat :=
  if (0 <=? i) && (i <? Z.of_nat n) then Some (Z.to_nat i)
  else if (- Z.of_nat n <=? i) && (i <? 0) then Some (Z.to_nat (i + Z.of_nat n))
  else None.

(** [row[j] = 1] on a list: positions are counted from 0, an index past the
    end leaves the list as it is (never reached: [np_index] guards it). *)
Fixpoint set_nth (l : list Z) (j : nat) (v : Z) : list Z :=
  match l, j with
  | [], _ => []
  | _ :: t, O => v :: t
  | x :: t, S j' => x :: set_nth t j' v
  end.

(** One row of [np.zeros((n, num_classes))] after
    [categorical[np.arange(n), y] = 1]. *)
Definition one_hot_row (num_classes : nat) (j : nat) : list Z :=
  set_nth (repeat 0 num_classes) j 1.

(** [if not num_classes: num_classes = np.max(y) + 1]: a count of 0 is
    replaced by one more than the largest label; [np.max] of an empty array
    raises, and so does [np.zeros] with a negative count. *)
Definition resolve_num_classes (y : list Z) (num_classes : nat) : option nat :=
  if (num_classes =? 0)%nat then
    match y with
    | [] => None
    | l :: ys => let m := fold_left Z.max ys l in
                 if m + 1 <? 0 then None else Some (Z.to_nat (m + 1))
    end
  else Some num_classes.

(** [categorical = np.zeros((n, num_classes)); categorical[np.arange(n), y] = 1]:
    the fancy-index assignment checks every index before writing, so an
    out-of-range label makes the whole call raise. *)
Fixpoint encode_rows (y : list Z) (num_classes : nat) : option (list (list Z)) :=
  match y with
  | [] => Some []
  | l :: ys =>
      match np_index num_classes l with
      | None => None
      | Some j =>
          match encode_rows ys num_classes with
          | None => None
          | Some rows => Some (one_hot_row num_classes j :: rows)
          end
      end
  end.

(** [to_categorical(y, num_classes)] for a flat label vector [y]:
<<
    y = np.array(y, dtype="int").ravel()
    if not num_classes:
        num_classes = np.max(y) + 1
    n = y.shape[0]
    categorical = np.zeros((n, num_classes), dtype=dtype)
    categorical[np.arange(n), y] = 1
>> *)
Definition to_categorical (y : list Z) (num_classes : nat) : option (list (list Z)) :=
  match resolve_num_classes y num_classes with
  | None => None
  | Some k => encode_rows y k
  end.

(** [np.argmax] on a vector: the index of the first maximal entry
    ([ValueError] on an empty vector). *)
Fixpoint argmax_from (l : list Z) (i best_i : nat) (best : Z) : nat :=
  match l with
  | [] => best_i
  | x :: t =>
      if best <? x then argmax_from t (S i) i x
      else argmax_from t (S i) best_i best
  end.

Definition argmax (l : list Z) : option nat :=
  match l with
  | [] => None
  | x :: t => Some (argmax_from t 1%nat 0%nat x)
  end.

Definition zero_or_one (x : Z) : bool := (x =? 0) || (x =? 1).

(** A one-hot vector of length [n]: entries in {0,1}, exactly one 1. *)
Definition is_one_hot (n : nat) (v : list Z) : bool :=
  (length v =? n)%nat
  && forallb zero_or_one v
  && Nat.eqb (count_occ Z.eq_dec v 1) 1.

End Labels.

(* ================================================================== *)
(** ** numpy arrays: buffers, views and the preprocessing cells *)

Module NumPy.

(** Array elements: the raw MNIST arrays hold [uint8] integers, the
    preprocessed ones [float32] values (kept as the rational they denote). *)
Inductive Val := VInt (z : Z) | VFloat (q : Q).

(** The process heap of data buffers; an address is a position in it. *)
Definition Heap := list (list Val).

(** An [ndarray] object: the buffer it reads and writes, and its shape.
    All arrays here are C-contiguous, so a view is a buffer plus a shape. *)
Record ndarray := { buf : nat; shape : list nat }.

(** Nested-list value of an array, as [tolist()] shows it. *)
#[local] Set Warnings "-register-all".
Inductive tensor := Scalar (v : Val) | Arr (ts : list tensor).

Fixpoint ravel (t : tensor) : list Val :=
  match t with
  | Scalar v => [v]
  | Arr ts => flat_map ravel ts
  end.

Definition prod_nat (s : list nat) : nat := fold_right Nat.mul 1%nat s.

(** [n] consecutive pieces of length [k]. *)
Fixpoint chunks (k n : nat) (l : list Val) : list (list Val) :=
  match n with
  | O => []
  | S n' => firstn k l :: chunks k n' (skipn k l)
  end.

(** The C-order reading of a flat buffer under a shape. *)
Fixpoint unravel (s : list nat) (l : list Val) : tensor :=
  match s with
  | [] => Scalar (hd (VInt 0) l)
  | n :: s' => Arr (map (unravel s') (chunks (prod_nat s') n l))
  end.

(** Sub-arrays along the first axis ([a[i]] for each [i]). *)
Definition items (t : tensor) : list tensor :=
  match t with
  | Scalar _ => []
  | Arr ts => ts
  end.

(** State and error monad over the heap: [None] is a raised exception. *)
Definition M (A : Type) : Type := Heap -> option (A * Heap).

Definition ret {A} (a : A) : M A := fun h => Some (a, h).

Definition bind {A B} (m : M A) (k : A -> M B) : M B :=
  fun h => match m h with
           | Some (a, h') => k a h'
           | None => None
           end.

Definition raise {A} : M A := fun _ => None.

Definition lift {A} (o : option A) : M A :=
  fun h => match o with Some a => Some (a, h) | None => None end.

Local Notation "x <- m ;; k" := (bind m (fun x => k))
  (at level 61, m at next level, right associativity).

Fixpoint mapM {A B} (f : A -> M B) (l : list A) : M (list B) :=
  match l with
  | [] => ret []
  | x :: t => y <- f x ;; ys <- mapM f t ;; ret (y :: ys)
  end.

(** A step that never touches the heap. *)
Definition pure_step {A B} (f : A -> M B) : Prop :=
  forall x h r h', f x h = Some (r, h') -> h' = h.

Definition read (a : ndarray) : M (list Val) :=
  fun h => match nth_error h (buf a) with
           | Some vs => Some (vs, h)
           | None => None
           end.

(** A fresh buffer at the end of the heap. *)
Definition alloc (vs : list Val) : M nat :=
  fun h => Some (length h, h ++ [vs]).

Fixpoint replace_at (h : Heap) (i : nat) (vs : list Val) : Heap :=
  match h, i with
  | [], _ => []
  | _ :: t, O => vs :: t
  | b :: t, S i' => b :: replace_at t i' vs
  end.

Definition write (a : ndarray) (vs : list Val) : M unit :=
  fun h => if (buf a <? length h)%nat then Some (tt, replace_at h (buf a) vs)
           else None.

(** [a.shape[0]]: [IndexError] on a 0-d array. *)
Definition shape0 (a : ndarray) : M nat :=
  match shape a with
  | n :: _ => ret n
  | [] => raise
  end.

(** [a.reshape(s)]: a view on the same buffer; [ValueError] when the sizes
    differ. *)
Definition reshape (a : ndarray) (s : list nat) : M ndarray :=
  if (prod_nat s =? prod_nat (shape a))%nat
  then ret {| buf := buf a; shape := s |}
  else raise.

Section Float32.

(** [rnd] rounds an exact rational result to the nearest float32. *)
Variable rnd : Q -> Q.

Definition to_float32 (v : Val) : Val :=
  match v with
  | VInt z => VFloat (rnd (inject_Z z))
  | VFloat q => VFloat (rnd q)
  end.

(** [a.astype('float32')]: [copy=True], so always a new buffer. *)
Definition astype_float32 (a : ndarray) : M ndarray :=
  vs <- read a ;;
  b <- alloc (map to_float32 vs) ;;
  ret {| buf := b; shape := shape a |}.

(** Elementwise true division into a float32 slot; an integer array cannot
    hold the float result ([UFuncTypeError]). *)
Definition div_val (d : Z) (v : Val) : M Val :=
  match v with
  | VFloat q => ret (VFloat (rnd (q / inject_Z d)))
  | VInt _ => raise
  end.

(** [a /= d]: in place, on [a]'s buffer. *)
Definition itruediv (a : ndarray) (d : Z) : M unit :=
  vs <- read a ;;
  vs' <- mapM (div_val d) vs ;;
  write a vs'.

End Float32.

(** [np.array(y, dtype="int")] on one element. *)
Definition as_int (v : Val) : M Z :=
  match v with
  | VInt z => ret z
  | VFloat q => ret (Z.quot (Qnum q) (Zpos (Qden q)))
  end.

(** [input_shape[:-1]] when the last axis is a trailing 1 on a rank > 1
    label array. *)
Definition squeeze_last (s : list nat) : list nat :=
  match rev s with
  | 1%nat :: (_ :: _) as r => rev r
  | _ => s
  end.

(** [tf.keras.utils.to_categorical(y, num_classes)] on an array: a new
    [float32] buffer of shape [input_shape + (num_classes,)]. *)
Definition to_categorical_arr (y : ndarray) (num_classes : nat) : M ndarray :=
  vs <- read y ;;
  labels <- mapM as_int vs ;;
  k <- lift (Labels.resolve_num_classes labels num_classes) ;;
  rows <- lift (Labels.encode_rows labels k) ;;
  b <- alloc (map (fun z => VFloat (inject_Z z)) (concat rows)) ;;
  ret {| buf := b; shape := squeeze_last (shape y) ++ [k] |}.

Definition img_rows : nat := 28.
Definition img_cols : nat := 28.
Definition num_classes : nat := 10.

(** Cells 11, 13 and 16 of the notebook, applied to one partition:
<<
    x = x.reshape(x.shape[0], img_rows, img_cols, 1)
    y = tf.keras.utils.to_categorical(y, num_classes)
    x = x.astype('float32')
    x /= 255
>> *)
Definition preprocess (rnd : Q -> Q) (x y : ndarray) : M (ndarray * ndarray) :=
  n <- shape0 x ;;
  x1 <- reshape x [n; img_rows; img_cols; 1%nat] ;;
  y1 <- to_categorical_arr y num_classes ;;
  x2 <- astype_float32 rnd x1 ;;
  _ <- itruediv rnd x2 255 ;;
  ret (x2, y1).

(** [a[idx]] (and [a[idx, :]]) for a 1-d integer index array on the first
    axis: every index is normalised or rejected ([IndexError]) before the
    result, a new array of shape [(len(idx),) + a.shape[1:]], is
    allocated. *)
Definition take_rows (a : ndarray) (idx : list Z) : M ndarray :=
  n <- shape0 a ;;
  vs <- read a ;;
  let row := prod_nat (tl (shape a)) in
  js <- mapM (fun i => lift (Labels.np_index n i)) idx ;;
  b <- alloc (flat_map (fun j => firstn row (skipn (j * row) vs)) js) ;;
  ret {| buf := b; shape := length idx :: tl (shape a) |}.



(** A label [to_categorical(_, 10)] accepts. *)
Definition label_ok (L : Z) : Prop := -10 <= L <= 9.

(** Pixel after [astype('float32')] and [/= 255]. *)
Definition normalise (rnd : Q -> Q) (v : Val) : Val :=
  match to_float32 rnd v with
  | VFloat q => VFloat (rnd (q / inject_Z 255)%Q)
  | other => other
  end.

(** The nested value of an array in a heap. *)
Definition value (h : Heap) (a : ndarray) : option tensor :=
  match nth_error h (buf a) with
  | Some vs => Some (unravel (shape a) vs)
  | None => None
  end.

End NumPy.

(* ================================================================== *)
(** ** [model.fit]: the epoch and batch loop of Keras *)

Module Fit.

(** A float32 loss value as far as finiteness goes. *)
Inductive LossVal := Finite (q : Q) | NaN | Inf (positive : bool).

(** IEEE addition on these classes. *)
Definition lv_add (a b : LossVal) : LossVal :=
  match a, b with
  | Finite x, Finite y => Finite (x + y)
  | NaN, _ | _, NaN => NaN
  | Inf s, Inf s' => if Bool.eqb s s' then Inf s else NaN
  | Inf s, Finite _ | Finite _, Inf s => Inf s
  end.

(** The [Mean] metric behind [logs["loss"]]: [total / count]. *)
Definition Tracker := (LossVal * nat)%type.

Definition tracker_reset : Tracker := (Finite 0, 0%nat).

Definition tracker_update (t : Tracker) (l : LossVal) : Tracker :=
  (lv_add (fst t) l, S (snd t)).

Definition tracker_result (t : Tracker) : LossVal :=
  match fst t with
  | Finite x => Finite (if (snd t =? 0)%nat then 0 else x / inject_Z (Z.of_nat (snd t)))
  | other => other
  end.

(** [np.isnan(loss) or np.isinf(loss)]. *)
Definition non_finite (l : LossVal) : bool :=
  match l with Finite _ => false | _ => true end.

(** The callbacks [fit] can be given; the notebook passes none. *)
Inductive Callback := TerminateOnNaN | ProgbarLogger | History.

Definition callback_eqb (a b : Callback) : bool :=
  match a, b with
  | TerminateOnNaN, TerminateOnNaN | ProgbarLogger, ProgbarLogger
  | History, History => true
  | _, _ => false
  end.

(** [on_train_batch_end]: only [TerminateOnNaN] sets
    [model.stop_training = True], and only on a non-finite loss. *)
Definition stop_training_after (cbs : list Callback) (logs_loss : LossVal) : bool :=
  existsb (callback_eqb TerminateOnNaN) cbs && non_finite logs_loss.

Section Loop.

Variables State Batch : Type.
(** One [train_function] call: forward, loss, gradients, optimizer step. *)
Variable train_function : State -> Batch -> State * LossVal.
(** The batches of each epoch (the data handler reshuffles per epoch). *)
Variable batches : nat -> list Batch.

(** The inner loop of [Model.fit]:
<<
    for step in data_handler.steps():
        logs = self.train_function(iterator)
        callbacks.on_train_batch_end(end_step, logs)
        if self.stop_training: break
>> *)
Fixpoint run_epoch (cbs : list Callback) (bs : list Batch) (s : State)
  (t : Tracker) : State * Tracker * bool :=
  match bs with
  | [] => (s, t, false)
  | b :: rest =>
      let (s', l) := train_function s b in
      let t' := tracker_update t l in
      if stop_training_after cbs (tracker_result t') then (s', t', true)
      else run_epoch cbs rest s' t'
  end.

(** The outer loop: metrics are reset at the start of each epoch, the epoch's
    loss is appended to the [History], and the loop ends early only when
    [stop_training] was set. *)
Fixpoint fit_loop (cbs : list Callback) (epochs_left epoch : nat) (s : State)
  (history : list LossVal) : State * list LossVal :=
  match epochs_left with
  | O => (s, history)
  | S k =>
      let '(s', t, stop) := run_epoch cbs (batches epoch) s tracker_reset in
      let history' := history ++ [tracker_result t] in
      if stop then (s', history') else fit_loop cbs k (S epoch) s' history'
  end.

(** [model.fit(..., epochs=epochs, callbacks=cbs)] returns the [History]. *)
Definition fit (cbs : list Callback) (epochs : nat) (s : State) : State * list LossVal :=
  fit_loop cbs epochs 0 s [].

(** Every batch of every epoch, one after the other. *)
Definition train_all (epochs : nat) (s : State) : State :=
  fold_left (fun s b => fst (train_function s b))
    (concat (map batches (seq 0 epochs))) s.

End Loop.

Arguments fit {State Batch} train_function batches cbs epochs s.
Arguments train_all {State Batch} train_function batches epochs s.

(** The data handler's batching: consecutive slices of [batch_size]
    samples, the last one partial ([drop_remainder=False]); [fuel] bounds the
    number of slices. *)
Fixpoint slices {A} (fuel batch_size : nat) (l : list A) : list (list A) :=
  match fuel with
  | O => []
  | S f =>
      match l with
      | [] => []
      | _ => firstn batch_size l :: slices f batch_size (skipn batch_size l)
      end
  end.

Definition make_batches {A} (batch_size : nat) (l : list A) : list (list A) :=
  slices (length l) batch_size l.

(** One epoch's batches: the samples in the order of the epoch's shuffled
    index vector [perm] ([tf.random.shuffle(tf.range(num_samples))]), then
    sliced. *)
Definition epoch_batches {A} (batch_size : nat) (perm : list nat) (d : A) (data : list A)
  : list (list A) :=
  make_batches batch_size (map (fun i => nth i data d) perm).

(** The notebook's call: [batch_size=128], [epochs=20], no [callbacks] argument;
    Keras adds its own [History] and, for [verbose=1], [ProgbarLogger]. *)
Definition batch_size : nat := 128.
Definition epochs : nat := 20.
Definition notebook_callbacks : list Callback := [History; ProgbarLogger].

End Fit.

(* ================================================================== *)
(** ** [model.evaluate]: inference-mode forward pass and metrics *)

Module Evaluate.

Section Layers.

(** Activations and parameter tensors, and the random generator state. *)
Variables T P Rng : Type.
(** The numerical kernels of the layers. *)
Variable conv_op : P -> P -> T -> T.
Variable pool_op : T -> T.
Variable flatten_op : T -> T.
Variable dense_op : P -> P -> T -> T.
Variable activation : Shapes.Activation -> T -> T.
(** [gamma * (x - mean) / sqrt(var + eps) + beta]. *)
Variable bn_apply : P -> P -> P -> P -> T -> T.
(** Per-channel batch mean and variance. *)
Variable moments : T -> P * P.
(** [moving = moving * momentum + batch * (1 - momentum)]. *)
Variable ema : P -> P -> P.
(** Draw a keep-mask, zero the dropped units and scale by [1/(1-rate)]. *)
Variable dropout_op : Q -> Rng -> T -> T * Rng.

(** The variables each layer owns. *)
Inductive LayerParams :=
| PConv (kernel bias : P) (act : Shapes.Activation)
| PBatchNorm (gamma beta moving_mean moving_variance : P)
| PMaxPool
| PFlatten
| PDense (kernel bias : P) (act : Shapes.Activation)
| PDropout (rate : Q).

(** [layer(x, training=training)]: the output, the layer's variables after
    the call's assignments, and the generator state. *)
Definition call (training : bool) (lp : LayerParams) (x : T) (rng : Rng)
  : T * LayerParams * Rng :=
  match lp with
  | PConv k b act => (activation act (conv_op k b x), lp, rng)
  | PBatchNorm g be mm mv =>
      if training then
        let '(mean, var) := moments x in
        (bn_apply g be mean var x, PBatchNorm g be (ema mm mean) (ema mv var), rng)
      else (bn_apply g be mm mv x, lp, rng)
  | PMaxPool => (pool_op x, lp, rng)
  | PFlatten => (flatten_op x, lp, rng)
  | PDense k b act => (activation act (dense_op k b x), lp, rng)
  | PDropout rate =>
      if training then
        let '(y, rng') := dropout_op rate rng x in (y, lp, rng')
      else (x, lp, rng)
  end.

(** [Sequential.call]: thread the activation through the layers. *)
Fixpoint forward (training : bool) (lps : list LayerParams) (x : T) (rng : Rng)
  : T * list LayerParams * Rng :=
  match lps with
  | [] => (x, [], rng)
  | lp :: rest =>
      let '(y, lp', rng') := call training lp x rng in
      let '(z, rest', rng'') := forward training rest y rng' in
      (z, lp' :: rest', rng'')
  end.

Record ModelState := { layers : list LayerParams; rng : Rng }.

(** Compiled metrics ([loss] mean and [accuracy] mean). *)
Variable Metrics : Type.
Variable metrics_reset : Metrics.
Variable metrics_update : Metrics -> T -> T -> Metrics.

(** [test_step]: [y_pred = self(x, training=False)], update the metrics. *)
Definition test_step (m : ModelState) (met : Metrics) (batch : T * T)
  : ModelState * Metrics :=
  let '(x, y) := batch in
  let '(y_pred, lps', rng') := forward false (layers m) x (rng m) in
  ({| layers := lps'; rng := rng' |}, metrics_update met y y_pred).

(** [model.evaluate(x, y)]: reset the metrics, run [test_step] on each
    batch, return the metric results. *)
Definition evaluate (m : ModelState) (data : list (T * T)) : Metrics * ModelState :=
  let '(m', met) :=
    fold_left (fun acc b => test_step (fst acc) (snd acc) b) data (m, metrics_reset) in
  (met, m').

End Layers.

End Evaluate.

(* ================================================================== *)
(** ** The softmax of the output layer

    [Dense(num_classes, activation='softmax')] applies Keras's
    [activations.softmax] to its (batch, 10) output, which calls
    [tf.nn.softmax] on the last axis.  On CPU the float32 kernel
    ([SoftmaxEigenImpl]) computes, row by row,
    [shifted = logits - max(logits)], [softmax = exp(shifted)] and
    [softmax = softmax * sum(softmax).inverse()].  Each float operation is the
    exact rational result passed through [rnd], the rounding to float32, and
    [fexp] is the float32 [exp].  The order in which Eigen adds up a row is
    not fixed: the sum is an arbitrary binary tree [t] over the row's
    indices. *)
Module Softmax.

(** A reduction tree; its leaves are indices into the row. *)
Inductive rtree := RLeaf (i : nat) | RNode (l r : rtree).

Fixpoint leaves (t : rtree) : list nat :=
  match t with
  | RLeaf i => [i]
  | RNode l r => leaves l ++ leaves r
  end.

(** The largest finite float32, [(2^24 - 1) * 2^104]. *)
Definition float32_max : Q := inject_Z ((2 ^ 24 - 1) * 2 ^ 104).

Section Kernel.
Variable rnd : Q -> Q.
Variable fexp : Q -> Q.

(** [logits.maximum(along_class)]: a maximum is exact. *)
Definition row_max (xs : list Q) : Q := fold_left Qmax (tl xs) (hd 0 xs)%Q.

(** [softmax.sum(along_class)], added up along the tree [t]. *)
Fixpoint tree_sum (t : rtree) (es : list Q) : Q :=
  match t with
  | RLeaf i => nth i es 0%Q
  | RNode l r => rnd (tree_sum l es + tree_sum r es)
  end.

(** [logits - max]: the arguments passed to [exp]. *)
Definition exp_args (xs : list Q) : list Q :=
  let m := row_max xs in map (fun x => rnd (x - m)) xs.

(** One row of the output: [exp], the inverse of the sum, the product. *)
Definition softmax_row (t : rtree) (xs : list Q) : list Q :=
  let es := map fexp (exp_args xs) in
  let r := rnd (1 / tree_sum t es) in
  map (fun e => rnd (e * r)) es.

End Kernel.

(** The exact sum of a list of rationals. *)
Definition sumQ (l : list Q) : Q := fold_right Qplus 0%Q l.

End Softmax.


(* ================================================================== *)
(** * Properties *)

(* ------------------------------------------------------------------ *)
(** ** Shape inference *)

Lemma conv_output_length_valid_stride1 (inp k : Z) :
  Shapes.conv_output_length inp k Shapes.Valid 1 1 = inp - k + 1.
Proof.
  unfold Shapes.conv_output_length.
  replace (inp - (k + (k - 1) * (1 - 1)) + 1 + 1 - 1) with (inp - k + 1) by ring.
  apply Z.div_1_r.
Qed.

Lemma conv_output_length_valid_pool (inp p : Z) :
  Shapes.conv_output_length inp p Shapes.Valid p 1 = inp / p.
Proof.
  unfold Shapes.conv_output_length.
  f_equal; ring.
Qed.

(** C1: for a [Conv2D] with stride 1 and no padding each spatial dimension
    becomes [input - kernel + 1] and the channel count becomes the filter
    count; for a [MaxPooling2D] with stride equal to its pool size each
    spatial dimension becomes [floor(input / pool)]; every convolution and
    pooling layer of the configured model is of that kind, and the model
    maps 28 to 26, 24, 12, 10 and 5. *)
Theorem conv_pool_output_sizes :
  (forall inp k, Shapes.conv_output_length inp k Shapes.Valid 1 1 = inp - k + 1) /\
  (forall inp p, Shapes.conv_output_length inp p Shapes.Valid p 1 = inp / p) /\
  (forall f kh kw act h w c s',
      Shapes.compute_output_shape (Shapes.conv2d f (kh, kw) act) [h; w; c] = Some s' ->
      s' = [h - kh + 1; w - kw + 1; f]) /\
  (forall ph pw h w c s',
      Shapes.compute_output_shape (Shapes.maxpool2d (ph, pw)) [h; w; c] = Some s' ->
      s' = [h / ph; w / pw; c]) /\
  Forall (fun l => match l with
                   | Shapes.Conv2D _ _ st pad _ => st = (1, 1) /\ pad = Shapes.Valid
                   | Shapes.MaxPooling2D _ st pad => st = None /\ pad = Shapes.Valid
                   | _ => True
                   end) Shapes.model /\
  Shapes.build Shapes.model Shapes.input_shape =
    Some [[26; 26; 32]; [26; 26; 32]; [24; 24; 64]; [24; 24; 64]; [12; 12; 64];
          [10; 10; 128]; [10; 10; 128]; [5; 5; 128]; [3200]; [128]; [128]; [10]].
Proof.
  split; [exact conv_output_length_valid_stride1 |].
  split; [exact conv_output_length_valid_pool |].
  split.
  { intros f kh kw act h w c s' E. cbn [Shapes.compute_output_shape Shapes.conv2d] in E.
    rewrite !conv_output_length_valid_stride1 in E.
    destruct ((h - kh + 1 <? 0) || (w - kw + 1 <? 0)); congruence. }
  split.
  { intros ph pw h w c s' E. cbn [Shapes.compute_output_shape Shapes.maxpool2d] in E.
    rewrite !conv_output_length_valid_pool in E.
    destruct ((h / ph <? 0) || (w / pw <? 0)); congruence. }
  split.
  - repeat constructor.
  - reflexivity.
Qed.

(** The instance of [conv_pool_output_sizes] at the first layers of the
    model: [Conv2D(32, (3,3))] on [(28,28,1)] and [MaxPooling2D((2,2))] on
    [(24,24,64)]. *)
Lemma conv_pool_output_sizes_witness :
  Shapes.compute_output_shape (Shapes.conv2d 32 (3, 3) Shapes.Relu) [28; 28; 1]
    = Some [26; 26; 32] /\
  [26; 26; 32] = [28 - 3 + 1; 28 - 3 + 1; 32] /\
  Shapes.compute_output_shape (Shapes.maxpool2d (2, 2)) [24; 24; 64] = Some [12; 12; 64] /\
  [12; 12; 64] = [24 / 2; 24 / 2; 64].
Proof.
  pose proof conv_pool_output_sizes as [_ [_ [Hc [Hp _]]]].
  split; [reflexivity |].
  split; [apply (Hc 32 3 3 Shapes.Relu 28 28 1); reflexivity |].
  split; [reflexivity |].
  apply (Hp 2 2 24 24 64); reflexivity.
Defined.

(* ------------------------------------------------------------------ *)
(** ** One-hot labels *)

Lemma zero_or_one_cases x : Labels.zero_or_one x = true -> x = 0 \/ x = 1.
Proof. unfold Labels.zero_or_one; rewrite orb_true_iff, !Z.eqb_eq; tauto. Qed.

Lemma no_one_all_zero (t : list Z) :
  forallb Labels.zero_or_one t = true -> count_occ Z.eq_dec t 1 = 0%nat ->
  t = repeat 0 (length t).
Proof.
  induction t as [| x t IH]; cbn; [reflexivity |].
  rewrite andb_true_iff; intros [Hx Ht] Hc.
  destruct (zero_or_one_cases x Hx); subst.
  - rewrite IH; [| exact Ht | exact Hc]. now rewrite repeat_length.
  - destruct (Z.eq_dec 1 1); [discriminate | congruence].
Qed.

Lemma one_hot_shape (v : list Z) :
  forallb Labels.zero_or_one v = true -> count_occ Z.eq_dec v 1 = 1%nat ->
  exists j, (j < length v)%nat /\ v = Labels.set_nth (repeat 0 (length v)) j 1.
Proof.
  induction v as [| x t IH]; cbn; [discriminate |].
  rewrite andb_true_iff; intros [Hx Ht] Hc.
  destruct (zero_or_one_cases x Hx); subst.
  - destruct (Z.eq_dec 0 1) as [e | _]; [discriminate |].
    destruct (IH Ht Hc) as [j [Hj E]].
    exists (S j). split; [lia |]. cbn. now rewrite <- E.
  - destruct (Z.eq_dec 1 1) as [_ | n]; [| congruence].
    injection Hc as Hc.
    exists 0%nat. split; [lia |]. cbn. now rewrite <- (no_one_all_zero t Ht Hc).
Qed.

Lemma np_index_in_range (n : nat) (L : Z) :
  0 <= L < Z.of_nat n -> Labels.np_index n L = Some (Z.to_nat L).
Proof.
  intros H. unfold Labels.np_index.
  replace ((0 <=? L) && (L <? Z.of_nat n)) with true; [reflexivity |].
  symmetry; apply andb_true_iff; split; [apply Z.leb_le | apply Z.ltb_lt]; lia.
Qed.

Lemma label_cases (L : Z) :
  0 <= L <= 9 ->
  L = 0 \/ L = 1 \/ L = 2 \/ L = 3 \/ L = 4 \/ L = 5 \/ L = 6 \/ L = 7 \/ L = 8 \/ L = 9.
Proof. lia. Qed.

Lemma to_categorical_pos (ls : list Z) (nc : nat) :
  nc <> 0%nat -> Labels.to_categorical ls nc = Labels.encode_rows ls nc.
Proof.
  intros Hnc. unfold Labels.to_categorical, Labels.resolve_num_classes.
  destruct nc; [contradiction | reflexivity].
Qed.

(** C2: for a label [L] in [0,9], [to_categorical([L], 10)] is one row whose
    [argmax] is [L]; distinct labels give distinct rows; every row is a
    one-hot vector of length 10, and every one-hot vector of length 10 is the
    row of exactly such a label. *)
Theorem to_categorical_argmax_bijection :
  (forall L, 0 <= L <= 9 ->
     exists row, Labels.to_categorical [L] 10 = Some [row]
                 /\ Labels.is_one_hot 10 row = true
                 /\ option_map Z.of_nat (Labels.argmax row) = Some L) /\
  (forall L1 L2 row, 0 <= L1 <= 9 -> 0 <= L2 <= 9 ->
     Labels.to_categorical [L1] 10 = Some [row] ->
     Labels.to_categorical [L2] 10 = Some [row] -> L1 = L2) /\
  (forall v, Labels.is_one_hot 10 v = true ->
     exists L, 0 <= L <= 9 /\ Labels.to_categorical [L] 10 = Some [v]).
Proof.
  assert (RT : forall L, 0 <= L <= 9 ->
     exists row, Labels.to_categorical [L] 10 = Some [row]
                 /\ Labels.is_one_hot 10 row = true
                 /\ option_map Z.of_nat (Labels.argmax row) = Some L).
  { intros L HL.
    destruct (label_cases L HL) as [-> | [-> | [-> | [-> | [-> | [-> | [-> | [-> | [-> | ->]]]]]]]]];
      eexists; (split; [reflexivity | split; reflexivity]). }
  split; [exact RT |].
  split.
  { intros L1 L2 row H1 H2 E1 E2.
    destruct (RT L1 H1) as [r1 [F1 [_ A1]]].
    destruct (RT L2 H2) as [r2 [F2 [_ A2]]].
    rewrite E1 in F1; rewrite E2 in F2.
    injection F1 as <-; injection F2 as <-.
    congruence. }
  intros v Hv. unfold Labels.is_one_hot in Hv.
  rewrite !andb_true_iff in Hv. destruct Hv as [[Hlen H01] Hc].
  apply Nat.eqb_eq in Hlen. apply Nat.eqb_eq in Hc.
  destruct (one_hot_shape v H01 Hc) as [j [Hj E]].
  exists (Z.of_nat j). split; [lia |].
  rewrite to_categorical_pos by discriminate. cbn [Labels.encode_rows].
  rewrite np_index_in_range by lia.
  rewrite Nat2Z.id. unfold Labels.one_hot_row.
  rewrite E, Hlen. reflexivity.
Qed.

(** The three parts of [to_categorical_argmax_bijection] at label 7 and at the
    one-hot vector of class 3. *)
Lemma to_categorical_argmax_bijection_witness :
  (exists row, Labels.to_categorical [7] 10 = Some [row]
               /\ Labels.is_one_hot 10 row = true
               /\ option_map Z.of_nat (Labels.argmax row) = Some 7) /\
  7 = 7 /\
  (exists L, 0 <= L <= 9 /\ Labels.to_categorical [L] 10 = Some [[0; 0; 0; 1; 0; 0; 0; 0; 0; 0]]).
Proof.
  destruct to_categorical_argmax_bijection as [RT [Inj Sur]].
  split; [apply RT; lia |].
  split.
  - destruct (RT 7) as [row [E _]]; [lia |].
    apply (Inj 7 7 row); [lia | lia | exact E | exact E].
  - apply Sur. reflexivity.
Defined.

(* ------------------------------------------------------------------ *)
(** ** The numpy heap: how each primitive moves the heap *)

Module HeapFacts.
Import NumPy.

Lemma bind_inv {A B} (m : M A) (k : A -> M B) h r :
  bind m k h = Some r -> exists a h', m h = Some (a, h') /\ k a h' = Some r.
Proof.
  unfold bind. destruct (m h) as [[a h'] |]; [eauto | discriminate].
Qed.

Lemma bind_some {A B} (m : M A) (k : A -> M B) h a h' :
  m h = Some (a, h') -> bind m k h = k a h'.
Proof. unfold bind. intros ->. reflexivity. Qed.

Lemma bind_none {A B} (m : M A) (k : A -> M B) h :
  m h = None -> bind m k h = None.
Proof. unfold bind. intros ->. reflexivity. Qed.

Ltac inv_bind H K :=
  apply bind_inv in H;
  let a := fresh "a" in let h := fresh "h" in
  destruct H as [a [h [H K]]].

Lemma mapM_pure {A B} (f : A -> M B) :
  pure_step f -> forall l h r h', mapM f l h = Some (r, h') -> h' = h.
Proof.
  intros Hf l. induction l as [| x t IH]; intros h r h' E; cbn in E.
  - unfold ret in E. congruence.
  - inv_bind E K. inv_bind K K0. unfold ret in K0.
    apply Hf in E. apply IH in K. congruence.
Qed.

Lemma mapM_ret {A B} (f : A -> M B) (g : A -> B) l h :
  (forall x, In x l -> f x h = Some (g x, h)) -> mapM f l h = Some (map g l, h).
Proof.
  induction l as [| x t IH]; intros Hf; cbn; [reflexivity |].
  rewrite (bind_some _ _ _ _ _ (Hf x (or_introl eq_refl))).
  rewrite (bind_some _ _ _ _ _ (IH (fun y Hy => Hf y (or_intror Hy)))).
  reflexivity.
Qed.

Lemma as_int_pure : pure_step as_int.
Proof. intros [z | q] h r h' E; cbn in E; unfold ret in E; congruence. Qed.

Lemma div_val_pure rnd d : pure_step (div_val rnd d).
Proof.
  intros [z | q] h r h' E; cbn in E; unfold ret, raise in E; congruence.
Qed.

Lemma read_inv a h vs h' :
  read a h = Some (vs, h') -> h' = h /\ nth_error h (buf a) = Some vs.
Proof.
  unfold read. destruct (nth_error h (buf a)); [| discriminate].
  intros E; injection E as <- <-; auto.
Qed.

Lemma alloc_inv vs h b h' :
  alloc vs h = Some (b, h') -> b = length h /\ h' = h ++ [vs].
Proof. unfold alloc. intros E; injection E as <- <-; auto. Qed.

Lemma write_inv a vs h u h' :
  write a vs h = Some (u, h') ->
  (buf a < length h)%nat /\ h' = replace_at h (buf a) vs.
Proof.
  unfold write. destruct (Nat.ltb_spec (buf a) (length h)); [| discriminate].
  intros E; injection E as _ <-; auto.
Qed.

Lemma lift_inv {A} (o : option A) h a h' :
  lift o h = Some (a, h') -> h' = h /\ o = Some a.
Proof. unfold lift. destruct o; [| discriminate]. intros E; injection E as <- <-; auto. Qed.

Lemma ret_inv {A} (x : A) h a h' : ret x h = Some (a, h') -> a = x /\ h' = h.
Proof. unfold ret. intros E; injection E as <- <-; auto. Qed.

Lemma shape0_inv a h n h' :
  shape0 a h = Some (n, h') -> h' = h /\ exists rest, shape a = n :: rest.
Proof.
  unfold shape0. destruct (shape a) as [| m rest]; [discriminate |].
  intros E; apply ret_inv in E as [-> ->]; eauto.
Qed.

Lemma reshape_inv a s h a' h' :
  reshape a s h = Some (a', h') ->
  h' = h /\ a' = {| buf := buf a; shape := s |} /\ prod_nat s = prod_nat (shape a).
Proof.
  unfold reshape. destruct (Nat.eqb_spec (prod_nat s) (prod_nat (shape a))); [| discriminate].
  intros E; apply ret_inv in E as [-> ->]; auto.
Qed.

Lemma to_categorical_arr_inv y nc h y' h' :
  to_categorical_arr y nc h = Some (y', h') ->
  buf y' = length h /\ exists vs, h' = h ++ [vs].
Proof.
  unfold to_categorical_arr. intros E.
  inv_bind E K. apply read_inv in E as [-> _].
  inv_bind K K0. apply (mapM_pure _ as_int_pure) in K as ->.
  inv_bind K0 K1. apply lift_inv in K0 as [-> _].
  inv_bind K1 K2. apply lift_inv in K1 as [-> _].
  inv_bind K2 K3. apply alloc_inv in K2 as [-> ->].
  apply ret_inv in K3 as [-> ->]. eauto.
Qed.

Lemma astype_float32_inv rnd a h a' h' :
  astype_float32 rnd a h = Some (a', h') ->
  exists vs, nth_error h (buf a) = Some vs /\ h' = h ++ [map (to_float32 rnd) vs]
             /\ buf a' = length h /\ shape a' = shape a.
Proof.
  unfold astype_float32. intros E.
  inv_bind E K. apply read_inv in E as [-> Hr].
  inv_bind K K0. apply alloc_inv in K as [-> ->].
  apply ret_inv in K0 as [-> ->]. eauto.
Qed.

Lemma itruediv_inv rnd a d h u h' :
  itruediv rnd a d h = Some (u, h') ->
  exists vs vs', nth_error h (buf a) = Some vs
                 /\ mapM (div_val rnd d) vs h = Some (vs', h)
                 /\ (buf a < length h)%nat /\ h' = replace_at h (buf a) vs'.
Proof.
  unfold itruediv. intros E.
  inv_bind E K. apply read_inv in E as [-> Hr].
  inv_bind K K0. pose proof K as E'.
  apply (mapM_pure _ (div_val_pure rnd d)) in E' as ->.
  apply write_inv in K0 as [Hl ->]. eauto 7.
Qed.

(** What a successful run of the preprocessing cells did to the heap. *)
Lemma preprocess_inv rnd x y h x' y' h' :
  preprocess rnd x y h = Some ((x', y'), h') ->
  exists n rest yc xs vs',
    shape x = n :: rest
    /\ prod_nat [n; img_rows; img_cols; 1%nat] = prod_nat (shape x)
    /\ buf y' = length h
    /\ nth_error (h ++ [yc]) (buf x) = Some xs
    /\ buf x' = S (length h)
    /\ shape x' = [n; img_rows; img_cols; 1%nat]
    /\ mapM (div_val rnd 255) (map (to_float32 rnd) xs) ((h ++ [yc]) ++ [map (to_float32 rnd) xs])
       = Some (vs', (h ++ [yc]) ++ [map (to_float32 rnd) xs])
    /\ h' = replace_at ((h ++ [yc]) ++ [map (to_float32 rnd) xs]) (S (length h)) vs'.
Proof.
  unfold preprocess. intros E.
  inv_bind E K. apply shape0_inv in E as [-> [rest Hs]].
  inv_bind K K0. apply reshape_inv in K as [-> [-> Hp]].
  inv_bind K0 K1. apply to_categorical_arr_inv in K0 as [Hy [yc ->]].
  inv_bind K1 K2. apply astype_float32_inv in K1 as [xs [Hx [-> [Hb Hsh]]]].
  inv_bind K2 K3. apply itruediv_inv in K2 as [vs [vs' [Hr [Hm [_ ->]]]]].
  apply ret_inv in K3 as [Hxy ->]. injection Hxy as <- <-.
  cbn [buf shape] in *.
  rewrite Hb in Hr. rewrite nth_error_app2 in Hr by lia.
  rewrite length_app, Nat.add_1_r, Nat.sub_diag in Hr. injection Hr as <-.
  exists a, rest, yc, xs, vs'.
  rewrite length_app, Nat.add_1_r in Hb.
  repeat split; auto; congruence.
Qed.

End HeapFacts.

Module FrameFacts.
Import NumPy HeapFacts.

Lemma firstn_replace_at (l : Heap) (n i : nat) vs :
  (n <= i)%nat -> firstn n (replace_at l i vs) = firstn n l.
Proof.
  revert n i. induction l as [| b t IH]; intros n i Hle; [reflexivity |].
  destruct n as [| n]; [reflexivity |].
  destruct i as [| i]; [lia |].
  cbn. f_equal. apply IH. lia.
Qed.

Lemma prefix_nth (h h' : Heap) (a : nat) :
  firstn (length h) h' = h -> (a < length h)%nat -> nth_error h' a = nth_error h a.
Proof.
  intros Hp Ha.
  rewrite <- (firstn_skipn (length h) h'), Hp.
  apply nth_error_app1. exact Ha.
Qed.

Lemma prefix_value (h h' : Heap) (x : ndarray) :
  firstn (length h) h' = h -> value h' x = value h x \/ value h x = None.
Proof.
  intros Hp. unfold value.
  destruct (Nat.ltb_spec (buf x) (length h)) as [Hl | Hl].
  - left. now rewrite (prefix_nth h h' _ Hp Hl).
  - right. now rewrite (proj2 (nth_error_None h (buf x)) Hl).
Qed.

End FrameFacts.

(* ------------------------------------------------------------------ *)
(** ** Preprocessing does not write to its inputs *)

(** C5: a successful run of the preprocessing cells leaves every buffer that
    existed before it as it was, so the raw image array and the raw label
    array still hold their integer values, and the arrays it returns live in
    new buffers. *)
Theorem preprocess_leaves_inputs_unchanged (rnd : Q -> Q) (h : NumPy.Heap)
  (x y : NumPy.ndarray) :
  match NumPy.preprocess rnd x y h with
  | Some ((x', y'), h') =>
      firstn (length h) h' = h
      /\ (length h <= NumPy.buf x')%nat /\ (length h <= NumPy.buf y')%nat
      /\ (NumPy.buf y' < NumPy.buf x')%nat
      /\ (NumPy.value h' x = NumPy.value h x \/ NumPy.value h x = None)
      /\ (NumPy.value h' y = NumPy.value h y \/ NumPy.value h y = None)
  | None => True
  end.
Proof.
  destruct (NumPy.preprocess rnd x y h) as [[[x' y'] h'] |] eqn:E; [| exact I].
  apply HeapFacts.preprocess_inv in E
    as [n [rest [yc [xs [vs' [_ [_ [Hy [_ [Hx [_ [_ ->]]]]]]]]]]]].
  assert (Hp : firstn (length h)
                 (NumPy.replace_at ((h ++ [yc]) ++ [map (NumPy.to_float32 rnd) xs])
                    (S (length h)) vs') = h).
  { rewrite FrameFacts.firstn_replace_at by lia.
    rewrite <- app_assoc, firstn_app, Nat.sub_diag, firstn_all. cbn.
    apply app_nil_r. }
  split; [exact Hp |].
  split; [lia |]. split; [lia |]. split; [lia |].
  split; apply FrameFacts.prefix_value; exact Hp.
Qed.

(* ------------------------------------------------------------------ *)
(** ** When the preprocessing cells raise *)

Module RunFacts.
Import NumPy HeapFacts.

Lemma np_index_some (n : nat) (L : Z) :
  - Z.of_nat n <= L < Z.of_nat n -> exists j, Labels.np_index n L = Some j.
Proof.
  intros H. unfold Labels.np_index.
  destruct ((0 <=? L) && (L <? Z.of_nat n)) eqn:E1; [eauto |].
  replace ((- Z.of_nat n <=? L) && (L <? 0)) with true; [eauto |].
  symmetry. apply andb_true_iff.
  apply andb_false_iff in E1. rewrite Z.leb_gt, Z.ltb_ge in E1.
  split; [apply Z.leb_le | apply Z.ltb_lt]; lia.
Qed.

Lemma np_index_none (n : nat) (L : Z) :
  ~ (- Z.of_nat n <= L < Z.of_nat n) -> Labels.np_index n L = None.
Proof.
  intros H. unfold Labels.np_index.
  replace ((0 <=? L) && (L <? Z.of_nat n)) with false.
  - replace ((- Z.of_nat n <=? L) && (L <? 0)) with false; [reflexivity |].
    symmetry. apply andb_false_iff.
    destruct (Z.leb_spec (- Z.of_nat n) L); [right; apply Z.ltb_ge; lia | now left].
  - symmetry. apply andb_false_iff.
    destruct (Z.leb_spec 0 L); [right; apply Z.ltb_ge; lia | now left].
Qed.

Lemma to_categorical_some (ls : list Z) :
  Forall label_ok ls -> exists rows, Labels.to_categorical ls 10 = Some rows.
Proof.
  intros H. rewrite to_categorical_pos by discriminate.
  induction H as [| L ls HL _ [rows IH]]; [eexists; reflexivity |].
  destruct (np_index_some 10 L) as [j Hj]; [unfold label_ok in HL; cbn; lia |].
  cbn. rewrite Hj, IH. eauto.
Qed.

Lemma to_categorical_none (ls : list Z) :
  Exists (fun L => ~ label_ok L) ls -> Labels.to_categorical ls 10 = None.
Proof.
  intros H. rewrite to_categorical_pos by discriminate.
  induction H as [L ls HL | L ls _ IH]; cbn.
  - rewrite np_index_none; [reflexivity |]. unfold label_ok in HL. cbn. lia.
  - destruct (Labels.np_index 10 L); [| reflexivity]. now rewrite IH.
Qed.

Lemma to_categorical_arr_run y h ls rows :
  nth_error h (buf y) = Some (map VInt ls) ->
  Labels.to_categorical ls 10 = Some rows ->
  to_categorical_arr y num_classes h
  = Some ({| buf := length h; shape := squeeze_last (shape y) ++ [num_classes] |},
          h ++ [map (fun z => VFloat (inject_Z z)) (concat rows)]).
Proof.
  intros Hy Hr. unfold to_categorical_arr.
  rewrite (bind_some _ _ h (map VInt ls) h) by (unfold read; now rewrite Hy).
  rewrite (bind_some _ _ h ls h).
  2:{ rewrite <- (map_id ls) at 2. rewrite <- (map_map VInt (fun v => match v with VInt z => z | VFloat _ => 0 end)).
      apply mapM_ret. intros v Hv. apply in_map_iff in Hv as [z [<- _]]. reflexivity. }
  rewrite (bind_some _ _ h 10%nat h) by reflexivity.
  rewrite to_categorical_pos in Hr by discriminate.
  rewrite (bind_some _ _ h rows h) by (unfold lift; now rewrite Hr).
  unfold alloc, bind, ret. reflexivity.
Qed.

(** A run of the preprocessing cells whose steps all succeed. *)
Lemma preprocess_run rnd h x y n rest xs ls rows :
  shape x = n :: rest ->
  prod_nat (shape x) = (n * 784)%nat ->
  nth_error h (buf x) = Some xs ->
  nth_error h (buf y) = Some (map VInt ls) ->
  Labels.to_categorical ls 10 = Some rows ->
  preprocess rnd x y h
  = Some (({| buf := S (length h); shape := [n; img_rows; img_cols; 1%nat] |},
           {| buf := length h; shape := squeeze_last (shape y) ++ [num_classes] |}),
          replace_at ((h ++ [map (fun z => VFloat (inject_Z z)) (concat rows)])
                        ++ [map (to_float32 rnd) xs])
                     (S (length h)) (map (normalise rnd) xs)).
Proof.
  intros Hs Hp Hx Hy Hr. unfold preprocess.
  rewrite (bind_some _ _ h n h) by (unfold shape0; now rewrite Hs).
  rewrite (bind_some _ _ h {| buf := buf x; shape := [n; img_rows; img_cols; 1%nat] |} h).
  2:{ unfold reshape. replace (prod_nat [n; img_rows; img_cols; 1%nat] =? prod_nat (shape x))%nat
        with true; [reflexivity |].
      symmetry. apply Nat.eqb_eq. rewrite Hp. cbn. lia. }
  rewrite (bind_some _ _ _ _ _ (to_categorical_arr_run y h ls rows Hy Hr)).
  set (h1 := h ++ [map (fun z => VFloat (inject_Z z)) (concat rows)]).
  assert (Hx1 : nth_error h1 (buf x) = Some xs).
  { unfold h1. rewrite nth_error_app1; [exact Hx |].
    apply nth_error_Some. congruence. }
  rewrite (bind_some _ _ h1 {| buf := length h1; shape := [n; img_rows; img_cols; 1%nat] |}
             (h1 ++ [map (to_float32 rnd) xs])).
  2:{ unfold astype_float32, bind, read, alloc, ret. cbn [buf shape]. rewrite Hx1. reflexivity. }
  assert (Hl : length h1 = S (length h)) by (unfold h1; rewrite length_app; cbn; lia).
  rewrite Hl.
  set (h2 := h1 ++ [map (to_float32 rnd) xs]).
  rewrite (bind_some _ _ h2 tt (replace_at h2 (S (length h)) (map (normalise rnd) xs))).
  { unfold ret. reflexivity. }
  unfold itruediv.
  assert (Hr2 : nth_error h2 (S (length h)) = Some (map (to_float32 rnd) xs)).
  { unfold h2. rewrite <- Hl, nth_error_app2, Nat.sub_diag by lia. reflexivity. }
  rewrite (bind_some _ _ h2 (map (to_float32 rnd) xs) h2) by (unfold read; cbn [buf]; now rewrite Hr2).
  rewrite (bind_some _ _ h2 (map (normalise rnd) xs) h2).
  - unfold write. cbn [buf].
    replace (S (length h) <? length h2)%nat with true; [reflexivity |].
    symmetry. apply Nat.ltb_lt. unfold h2. rewrite length_app, Hl. cbn. lia.
  - replace (map (normalise rnd) xs) with
      (map (fun v => match v with VFloat q => VFloat (rnd (q / inject_Z 255)%Q) | o => o end)
           (map (to_float32 rnd) xs)).
    + apply mapM_ret. intros v Hv. apply in_map_iff in Hv as [w [<- _]].
      destruct w; reflexivity.
    + rewrite map_map. apply map_ext. intros [z | q]; reflexivity.
Qed.

End RunFacts.

Module RejectFacts.
Import NumPy HeapFacts RunFacts.

Lemma label_ok_dec L : {label_ok L} + {~ label_ok L}.
Proof. unfold label_ok. destruct (Z_le_dec (-10) L), (Z_le_dec L 9); [left | right..]; lia. Qed.

Lemma to_categorical_arr_none y h ls :
  nth_error h (buf y) = Some (map VInt ls) ->
  Exists (fun L => ~ label_ok L) ls ->
  to_categorical_arr y num_classes h = None.
Proof.
  intros Hy He. unfold to_categorical_arr.
  rewrite (bind_some _ _ h (map VInt ls) h) by (unfold read; now rewrite Hy).
  rewrite (bind_some _ _ h ls h).
  2:{ rewrite <- (map_id ls) at 2.
      rewrite <- (map_map VInt (fun v => match v with VInt z => z | VFloat _ => 0 end)).
      apply mapM_ret. intros v Hv. apply in_map_iff in Hv as [z [<- _]]. reflexivity. }
  rewrite (bind_some _ _ h 10%nat h) by reflexivity.
  apply bind_none. unfold lift.
  now rewrite <- to_categorical_pos, to_categorical_none by (assumption || discriminate).
Qed.

End RejectFacts.

(** C6, as the claim states it, fails: the notebook validates nothing, so a
    batch of 14x56 images (784 pixels each) goes through the reshape, and a
    label [-1] goes through [to_categorical], where numpy's negative indexing
    encodes it as class 9. *)
Lemma preprocess_accepts_unvalidated_batch :
  NumPy.preprocess (fun q => q)
    {| NumPy.buf := 0; NumPy.shape := [1; 14; 56]%nat |}
    {| NumPy.buf := 1; NumPy.shape := [1]%nat |}
    [repeat (NumPy.VInt 0) 784; [NumPy.VInt 3]] <> None
  /\ NumPy.preprocess (fun q => q)
       {| NumPy.buf := 0; NumPy.shape := [1; 28; 28]%nat |}
       {| NumPy.buf := 1; NumPy.shape := [1]%nat |}
       [repeat (NumPy.VInt 0) 784; [NumPy.VInt (-1)]] <> None
  /\ Labels.to_categorical [-1] 10 = Some [Labels.one_hot_row 10 9].
Proof.
  split; [| split].
  - vm_compute. discriminate.
  - vm_compute. discriminate.
  - reflexivity.
Qed.

(** C6 (amended): given readable image and label arrays, the preprocessing
    cells raise exactly when the image array has no axis, or its element
    count is not [N * 784] for [N] its first axis (the reshape to
    [(N,28,28,1)] fails), or some label lies outside [[-10, 9]] (the
    [to_categorical] index fails); otherwise they return a result. A label
    [L] in [[-10, -1]] is encoded exactly as the class [L + 10]: replacing
    every such label by [L + 10] leaves [to_categorical]'s result unchanged. *)
Theorem preprocess_rejects_iff (rnd : Q -> Q) (h : NumPy.Heap) (x y : NumPy.ndarray)
  (xs : list NumPy.Val) (ls : list Z) :
  nth_error h (NumPy.buf x) = Some xs ->
  nth_error h (NumPy.buf y) = Some (map NumPy.VInt ls) ->
  (NumPy.preprocess rnd x y h = None <->
     NumPy.shape x = []
     \/ NumPy.prod_nat (NumPy.shape x) <> (hd 0 (NumPy.shape x) * 784)%nat
     \/ Exists (fun L => ~ NumPy.label_ok L) ls)
  /\ Labels.to_categorical ls 10
     = Labels.to_categorical
         (map (fun L => if (-10 <=? L) && (L <? 0) then L + 10 else L) ls) 10.
Proof.
  intros Hx Hy. split.
  2:{ rewrite !to_categorical_pos by discriminate. clear.
      induction ls as [| L ls IH]; [reflexivity |]. cbn [map Labels.encode_rows].
      rewrite <- IH. f_equal.
      destruct ((-10 <=? L) && (L <? 0)) eqn:E; [| reflexivity].
      apply andb_true_iff in E as [E1 E2]. apply Z.leb_le in E1. apply Z.ltb_lt in E2.
      unfold Labels.np_index.
      replace ((0 <=? L) && (L <? Z.of_nat 10)) with false
        by (symmetry; apply andb_false_iff; left; apply Z.leb_gt; lia).
      replace ((- Z.of_nat 10 <=? L) && (L <? 0)) with true
        by (symmetry; apply andb_true_iff; split; [apply Z.leb_le | apply Z.ltb_lt]; lia).
      replace ((0 <=? L + 10) && (L + 10 <? Z.of_nat 10)) with true
        by (symmetry; apply andb_true_iff; split; [apply Z.leb_le | apply Z.ltb_lt]; lia).
      reflexivity. }
  split.
  - intros Hn.
    destruct (NumPy.shape x) as [| n rest] eqn:Hs; [now left | right].
    destruct (Nat.eq_dec (NumPy.prod_nat (n :: rest)) (n * 784)) as [Hp | Hp];
      [| now left].
    right.
    destruct (Forall_Exists_dec NumPy.label_ok RejectFacts.label_ok_dec ls) as [Hf | He];
      [| exact He].
    exfalso. destruct (RunFacts.to_categorical_some ls Hf) as [rows Hr].
    rewrite <- Hs in Hp.
    rewrite (RunFacts.preprocess_run rnd h x y n rest xs ls rows Hs Hp Hx Hy Hr) in Hn.
    discriminate.
  - unfold NumPy.preprocess.
    intros Hc.
    destruct (NumPy.shape0 x h) as [[n h1] |] eqn:E0;
      [| apply HeapFacts.bind_none; exact E0].
    rewrite (HeapFacts.bind_some _ _ _ _ _ E0).
    pose proof (HeapFacts.shape0_inv x h n h1 E0) as [-> [rest Hs]].
    destruct (NumPy.reshape x [n; NumPy.img_rows; NumPy.img_cols; 1%nat] h) as [[x1 h2] |] eqn:E1;
      [| apply HeapFacts.bind_none; exact E1].
    rewrite (HeapFacts.bind_some _ _ _ _ _ E1).
    pose proof (HeapFacts.reshape_inv _ _ _ _ _ E1) as [-> [-> Hp]].
    apply HeapFacts.bind_none. apply (RejectFacts.to_categorical_arr_none y h ls Hy).
    destruct Hc as [Hc | [Hc | Hc]]; [congruence | | exact Hc].
    exfalso. apply Hc. rewrite Hs in *. cbn in Hp |- *. lia.
Qed.

(** [preprocess_rejects_iff] at a batch whose label 12 is out of range, and
    at the 14x56 batch, which it accepts. *)
Lemma preprocess_rejects_iff_witness :
  NumPy.preprocess (fun q => q)
    {| NumPy.buf := 0; NumPy.shape := [1; 28; 28]%nat |}
    {| NumPy.buf := 1; NumPy.shape := [1]%nat |}
    [repeat (NumPy.VInt 0) 784; [NumPy.VInt 12]] = None
  /\ ~ (NumPy.preprocess (fun q => q)
          {| NumPy.buf := 0; NumPy.shape := [1; 14; 56]%nat |}
          {| NumPy.buf := 1; NumPy.shape := [1]%nat |}
          [repeat (NumPy.VInt 0) 784; [NumPy.VInt 3]] = None).
Proof.
  split.
  - apply (proj2 (proj1 (preprocess_rejects_iff (fun q => q)
                    [repeat (NumPy.VInt 0) 784; [NumPy.VInt 12]]
                    {| NumPy.buf := 0; NumPy.shape := [1; 28; 28]%nat |}
                    {| NumPy.buf := 1; NumPy.shape := [1]%nat |}
                    (repeat (NumPy.VInt 0) 784) [12] eq_refl eq_refl))).
    right. right. constructor. unfold NumPy.label_ok. lia.
  - intros E.
    apply (proj1 (proj1 (preprocess_rejects_iff (fun q => q)
                    [repeat (NumPy.VInt 0) 784; [NumPy.VInt 3]]
                    {| NumPy.buf := 0; NumPy.shape := [1; 14; 56]%nat |}
                    {| NumPy.buf := 1; NumPy.shape := [1]%nat |}
                    (repeat (NumPy.VInt 0) 784) [3] eq_refl eq_refl))) in E.
    destruct E as [E | [E | E]].
    + discriminate.
    + apply E. reflexivity.
    + inversion E as [L l HL | L l HL]; subst.
      * apply HL. unfold NumPy.label_ok. lia.
      * inversion HL.
Defined.

(* ------------------------------------------------------------------ *)
(** ** Reshape and normalisation *)

Module TensorFacts.
Import NumPy.

Lemma chunks_concat (k n : nat) (l : list Val) :
  length l = (k * n)%nat ->
  concat (chunks k n l) = l /\ Forall (fun c => length c = k) (chunks k n l).
Proof.
  revert l. induction n as [| n IH]; intros l Hl.
  - rewrite Nat.mul_0_r in Hl. apply length_zero_iff_nil in Hl as ->. split; constructor.
  - cbn [chunks concat].
    assert (Hs : length (skipn k l) = (k * n)%nat) by (rewrite length_skipn; lia).
    destruct (IH _ Hs) as [Hc Hf].
    rewrite Hc, firstn_skipn. split; [reflexivity |].
    constructor; [rewrite length_firstn; lia | exact Hf].
Qed.

Lemma ravel_unravel (s : list nat) (l : list Val) :
  length l = prod_nat s -> ravel (unravel s l) = l.
Proof.
  revert l. induction s as [| n s IH]; intros l Hl.
  - destruct l as [| v [| w t]]; cbn in Hl; try discriminate. reflexivity.
  - cbn [unravel ravel]. cbn [prod_nat fold_right] in Hl.
    fold (prod_nat s) in Hl.
    destruct (chunks_concat (prod_nat s) n l) as [Hc Hf]; [lia |].
    rewrite flat_map_concat_map, map_map.
    rewrite <- Hc at 2. f_equal.
    rewrite <- (map_id (chunks _ _ _)) at 2. apply map_ext_in.
    intros c Hin. apply IH. rewrite Forall_forall in Hf. now apply Hf.
Qed.

Lemma ravel_items_unravel (n : nat) (s : list nat) (l : list Val) :
  length l = (prod_nat s * n)%nat ->
  map ravel (items (unravel (n :: s) l)) = chunks (prod_nat s) n l.
Proof.
  intros Hl. cbn [unravel items]. rewrite map_map.
  destruct (chunks_concat (prod_nat s) n l Hl) as [_ Hf].
  rewrite <- (map_id (chunks _ _ _)) at 2. apply map_ext_in.
  intros c Hin. apply ravel_unravel. rewrite Forall_forall in Hf. now apply Hf.
Qed.

Lemma nth_error_replace_at (l : Heap) (i : nat) vs :
  (i < length l)%nat -> nth_error (replace_at l i vs) i = Some vs.
Proof.
  revert i. induction l as [| b t IH]; intros i Hi; [cbn in Hi; lia |].
  destruct i as [| i]; [reflexivity |]. cbn. apply IH. cbn in Hi. lia.
Qed.

End TensorFacts.

Module RoundFacts.
Import NumPy.

Section Rounding.
Variable rnd : Q -> Q.
Hypothesis rnd_mono : forall a b, (a <= b)%Q -> (rnd a <= rnd b)%Q.
Hypothesis rnd_int : forall z, 0 <= z <= 2 ^ 24 -> (rnd (inject_Z z) == inject_Z z)%Q.

Lemma normalise_unit (z : Z) :
  0 <= z <= 255 ->
  exists q, NumPy.normalise rnd (VInt z) = VFloat q /\ (0 <= q <= 1)%Q.
Proof.
  intros Hz. eexists; split; [reflexivity |].
  set (p := rnd (inject_Z z)).
  assert (Hp : (p == inject_Z z)%Q) by (apply rnd_int; lia).
  assert (H0 : (0 <= p / inject_Z 255)%Q).
  { apply Qle_shift_div_l; [reflexivity |].
    rewrite Hp. unfold Qle; cbn. lia. }
  assert (H1 : (p / inject_Z 255 <= 1)%Q).
  { apply Qle_shift_div_r; [reflexivity |].
    rewrite Hp. unfold Qle; cbn. lia. }
  split.
  - apply Qle_trans with (rnd (inject_Z 0)).
    + rewrite (rnd_int 0) by lia. apply Qle_refl.
    + now apply rnd_mono.
  - apply Qle_trans with (rnd (inject_Z 1)).
    + now apply rnd_mono.
    + rewrite (rnd_int 1) by lia. apply Qle_refl.
Qed.

End Rounding.
End RoundFacts.

(** C3: for a batch of [N] images of shape [(N,28,28)] with integer pixels
    in [[0,255]] (and labels in [[0,9]]), reshaping to [(N,28,28,1)] keeps
    the flat pixel sequence of the whole array and of each image, and after
    [astype('float32')] and [/= 255] every pixel of the result, in the same
    order, is a float in [[0,1]].  [rnd] is the float32 rounding: any
    monotone rounding that keeps the integers up to [2^24] (all exactly
    representable in float32). *)
Theorem preprocess_unit_pixels_lossless_reshape (rnd : Q -> Q)
  (rnd_mono : forall a b, (a <= b)%Q -> (rnd a <= rnd b)%Q)
  (rnd_int : forall z, 0 <= z <= 2 ^ 24 -> (rnd (inject_Z z) == inject_Z z)%Q)
  (h : NumPy.Heap) (x y : NumPy.ndarray) (N : nat) (xs : list NumPy.Val) (ls : list Z) :
  nth_error h (NumPy.buf x) = Some xs ->
  NumPy.shape x = [N; 28; 28]%nat ->
  length xs = (N * 784)%nat ->
  Forall (fun v => exists z, v = NumPy.VInt z /\ 0 <= z <= 255) xs ->
  nth_error h (NumPy.buf y) = Some (map NumPy.VInt ls) ->
  Forall (fun L => 0 <= L <= 9) ls ->
  (exists x1 t t1,
      NumPy.reshape x [N; 28; 28; 1]%nat h = Some (x1, h)
      /\ NumPy.value h x = Some t /\ NumPy.value h x1 = Some t1
      /\ NumPy.ravel t1 = NumPy.ravel t /\ NumPy.ravel t = xs
      /\ map NumPy.ravel (NumPy.items t1) = map NumPy.ravel (NumPy.items t))
  /\ (exists x' y' h' vs',
      NumPy.preprocess rnd x y h = Some ((x', y'), h')
      /\ NumPy.shape x' = [N; 28; 28; 1]%nat
      /\ nth_error h' (NumPy.buf x') = Some vs'
      /\ vs' = map (NumPy.normalise rnd) xs
      /\ Forall (fun v => exists q, v = NumPy.VFloat q /\ (0 <= q <= 1)%Q) vs').
Proof.
  intros Hx Hs Hlen Hpix Hy Hlab.
  destruct (RunFacts.to_categorical_some ls) as [rows Hr].
  { eapply Forall_impl; [| exact Hlab]. unfold NumPy.label_ok. intros; lia. }
  split.
  - exists {| NumPy.buf := NumPy.buf x; NumPy.shape := [N; 28; 28; 1]%nat |},
      (NumPy.unravel [N; 28; 28]%nat xs), (NumPy.unravel [N; 28; 28; 1]%nat xs).
    split.
    { unfold NumPy.reshape, NumPy.ret. rewrite Hs.
      replace (NumPy.prod_nat [N; 28; 28; 1]%nat =? NumPy.prod_nat [N; 28; 28]%nat)%nat
        with true; [reflexivity |].
      symmetry. apply Nat.eqb_eq. cbn. lia. }
    split; [unfold NumPy.value; now rewrite Hx, Hs |].
    split; [unfold NumPy.value; cbn [NumPy.buf NumPy.shape]; now rewrite Hx |].
    rewrite !TensorFacts.ravel_unravel by (rewrite Hlen; cbn; lia).
    split; [reflexivity |]. split; [reflexivity |].
    rewrite !TensorFacts.ravel_items_unravel by (rewrite Hlen; cbn; lia).
    reflexivity.
  - assert (Hp : NumPy.prod_nat (NumPy.shape x) = (N * 784)%nat) by (rewrite Hs; cbn; lia).
    rewrite (RunFacts.preprocess_run rnd h x y N [28; 28]%nat xs ls rows Hs Hp Hx Hy Hr).
    do 4 eexists. split; [reflexivity |].
    split; [reflexivity |].
    split.
    { cbn [NumPy.buf]. apply TensorFacts.nth_error_replace_at.
      rewrite !length_app. cbn. lia. }
    split; [reflexivity |].
    apply Forall_map. eapply Forall_impl; [| exact Hpix].
    intros v [z [-> Hz]]. now apply RoundFacts.normalise_unit.
Qed.

(** [preprocess_unit_pixels_lossless_reshape] with exact rational division,
    on one image whose pixels are all 200, labelled 3. *)
Lemma preprocess_unit_pixels_lossless_reshape_witness :
  exists x' y' h' vs',
    NumPy.preprocess (fun q => q)
      {| NumPy.buf := 0; NumPy.shape := [1; 28; 28]%nat |}
      {| NumPy.buf := 1; NumPy.shape := [1]%nat |}
      [repeat (NumPy.VInt 200) 784; [NumPy.VInt 3]] = Some ((x', y'), h')
    /\ NumPy.shape x' = [1; 28; 28; 1]%nat
    /\ nth_error h' (NumPy.buf x') = Some vs'
    /\ vs' = map (NumPy.normalise (fun q => q)) (repeat (NumPy.VInt 200) 784)
    /\ Forall (fun v => exists q, v = NumPy.VFloat q /\ (0 <= q <= 1)%Q) vs'.
Proof.
  apply (preprocess_unit_pixels_lossless_reshape (fun q => q)
           (fun a b H => H) (fun z _ => Qeq_refl _)
           [repeat (NumPy.VInt 200) 784; [NumPy.VInt 3]]
           {| NumPy.buf := 0; NumPy.shape := [1; 28; 28]%nat |}
           {| NumPy.buf := 1; NumPy.shape := [1]%nat |}
           1 (repeat (NumPy.VInt 200) 784) [3]).
  - reflexivity.
  - reflexivity.
  - reflexivity.
  - apply Forall_forall. intros v Hv. apply repeat_spec in Hv as ->.
    exists 200. split; [reflexivity | lia].
  - reflexivity.
  - constructor; [lia | constructor].
Defined.

(* ------------------------------------------------------------------ *)
(** ** Building the [Sequential] model *)

(** C7, as the claim states it, fails: [Dense] takes its input size from the
    incoming last axis, so the model with its [Flatten] layer left out still
    builds, and ends in [(batch, 5, 5, 10)], not [(batch, 10)]. *)
Lemma model_without_flatten_builds :
  Shapes.output_shape (firstn 8 Shapes.model ++ skipn 9 Shapes.model) Shapes.input_shape
    = Some [5; 5; 10]
  /\ Shapes.output_shape (firstn 8 Shapes.model ++ skipn 9 Shapes.model) Shapes.input_shape
    <> Some [Shapes.num_classes].
Proof. split; [reflexivity | discriminate]. Qed.

(** C7 (amended): [Dense] never rejects a preceding shape of rank at least 1
    (it replaces the last axis, whatever its size) and fails only on an input
    with no axis besides the batch; [Flatten] accepts every shape; the
    configured model builds and ends in [(batch, 10)]. *)
Theorem dense_adapts_and_model_ends_in_classes :
  (forall units act (s : Shapes.Shape) (d : Z),
      Shapes.compute_output_shape (Shapes.Dense units act) (s ++ [d]) = Some (s ++ [units])) /\
  (forall units act, Shapes.compute_output_shape (Shapes.Dense units act) [] = None) /\
  (forall s, Shapes.compute_output_shape Shapes.Flatten s = Some [Shapes.prod s]) /\
  Shapes.output_shape Shapes.model Shapes.input_shape = Some [Shapes.num_classes].
Proof.
  split; [| split; [| split]].
  - intros units act s d. cbn [Shapes.compute_output_shape].
    destruct (s ++ [d]) eqn:E; [now destruct s |].
    rewrite <- E, removelast_last. reflexivity.
  - reflexivity.
  - reflexivity.
  - reflexivity.
Qed.

(* ------------------------------------------------------------------ *)
(** ** Training on a non-finite loss *)

Module FitFacts.
Import Fit.

Section Loop.
Variables State Batch : Type.
Variable train_function : State -> Batch -> State * LossVal.
Variable batches : nat -> list Batch.
Variable cbs : list Callback.
Hypothesis no_terminate : existsb (callback_eqb TerminateOnNaN) cbs = false.

Lemma run_epoch_runs_all (bs : list Batch) (s : State) (t : Tracker) :
  exists t', run_epoch State Batch train_function cbs bs s t = (fold_left (fun s b => fst (train_function s b)) bs s, t', false).
Proof.
  revert s t. induction bs as [| b bs IH]; intros s t; cbn; [eauto |].
  destruct (train_function s b) as [s' l] eqn:E. cbn.
  unfold stop_training_after. rewrite no_terminate. cbn.
  apply IH.
Qed.

Lemma fit_loop_runs_all (k e : nat) (s : State) (hist : list LossVal) :
  fst (fit_loop State Batch train_function batches cbs k e s hist)
    = fold_left (fun s b => fst (train_function s b)) (concat (map batches (seq e k))) s
  /\ length (snd (fit_loop State Batch train_function batches cbs k e s hist))
     = (length hist + k)%nat.
Proof.
  revert e s hist. induction k as [| k IH]; intros e s hist; cbn [fit_loop].
  - split; [reflexivity | cbn; lia].
  - destruct (run_epoch_runs_all (batches e) s tracker_reset) as [t' ->].
    destruct (IH (S e) (fold_left (fun s b => fst (train_function s b)) (batches e) s) (hist ++ [tracker_result t'])) as [H1 H2].
    split.
    + rewrite H1. cbn [seq map concat]. rewrite fold_left_app. reflexivity.
    + rewrite H2, length_app. cbn. lia.
Qed.

End Loop.

Lemma no_terminate_of_not_in (cbs : list Callback) :
  ~ In TerminateOnNaN cbs -> existsb (callback_eqb TerminateOnNaN) cbs = false.
Proof.
  intros Hn. apply not_true_is_false. intros He.
  apply existsb_exists in He as [c [Hc E]].
  destruct c; try discriminate. contradiction.
Qed.

End FitFacts.

(** C9, as the claim states it, fails: with the notebook's call (20 epochs,
    157 batches of 128 out of 20000 samples, no [TerminateOnNaN]), a loss
    that is NaN from the very first batch neither raises nor stops training:
    all 3140 training steps run and [fit] returns its [History] of NaN
    epoch losses. *)
Lemma fit_continues_after_nan :
  Fit.fit (fun (s : nat) (_ : unit) => (S s, Fit.NaN)) (fun _ => repeat tt 157)
    Fit.notebook_callbacks Fit.epochs 0%nat
  = (3140%nat, repeat Fit.NaN 20).
Proof. vm_compute. reflexivity. Qed.

(** C9 (amended): when no [TerminateOnNaN] callback is registered (the
    notebook registers none), [fit] runs every batch of every epoch whatever
    the losses, finite or not, and returns normally with one [History] entry
    per epoch. *)
Theorem fit_ignores_non_finite_loss (State Batch : Type)
  (train_function : State -> Batch -> State * Fit.LossVal)
  (batches : nat -> list Batch) (cbs : list Fit.Callback) (epochs : nat) (s : State) :
  ~ In Fit.TerminateOnNaN cbs ->
  fst (Fit.fit train_function batches cbs epochs s)
    = Fit.train_all train_function batches epochs s
  /\ length (snd (Fit.fit train_function batches cbs epochs s)) = epochs.
Proof.
  intros Hn.
  destruct (FitFacts.fit_loop_runs_all State Batch train_function batches cbs
              (FitFacts.no_terminate_of_not_in cbs Hn) epochs 0 s []) as [H1 H2].
  split; [exact H1 | exact H2].
Qed.

(** [fit_ignores_non_finite_loss] for the notebook's callbacks, with a
    training step that always reports NaN. *)
Lemma fit_ignores_non_finite_loss_witness :
  fst (Fit.fit (fun (s : nat) (_ : unit) => (S s, Fit.NaN)) (fun _ => repeat tt 3)
         Fit.notebook_callbacks 2 0%nat)
    = Fit.train_all (fun (s : nat) (_ : unit) => (S s, Fit.NaN)) (fun _ => repeat tt 3) 2 0%nat
  /\ length (snd (Fit.fit (fun (s : nat) (_ : unit) => (S s, Fit.NaN)) (fun _ => repeat tt 3)
                    Fit.notebook_callbacks 2 0%nat)) = 2%nat.
Proof.
  apply fit_ignores_non_finite_loss.
  cbn. intros [H | [H | []]]; discriminate.
Defined.

(* ------------------------------------------------------------------ *)
(** ** Evaluation leaves the model as it was *)

Module EvalFacts.
Import Evaluate.

Section Facts.
Variables T P Rng : Type.
Variable conv_op : P -> P -> T -> T.
Variable pool_op : T -> T.
Variable flatten_op : T -> T.
Variable dense_op : P -> P -> T -> T.
Variable activation : Shapes.Activation -> T -> T.
Variable bn_apply : P -> P -> P -> P -> T -> T.
Variable moments : T -> P * P.
Variable ema : P -> P -> P.
Variable dropout_op : Q -> Rng -> T -> T * Rng.
Variable Metrics : Type.
Variable metrics_reset : Metrics.
Variable metrics_update : Metrics -> T -> T -> Metrics.

Local Abbreviation call := (call T P Rng conv_op pool_op flatten_op dense_op activation
                          bn_apply moments ema dropout_op).
Local Abbreviation forward := (forward T P Rng conv_op pool_op flatten_op dense_op activation
                             bn_apply moments ema dropout_op).
Local Abbreviation test_step := (test_step T P Rng conv_op pool_op flatten_op dense_op activation
                               bn_apply moments ema dropout_op Metrics metrics_update).

Lemma call_inference_keeps_state lp x r :
  snd (fst (call false lp x r)) = lp /\ snd (call false lp x r) = r.
Proof. destruct lp; cbn; auto. Qed.

Lemma forward_inference_keeps_state lps x r :
  snd (fst (forward false lps x r)) = lps /\ snd (forward false lps x r) = r.
Proof.
  revert x r. induction lps as [| lp lps IH]; intros x r; cbn; [auto |].
  destruct (call false lp x r) as [[y lp'] r'] eqn:E.
  destruct (call_inference_keeps_state lp x r) as [H1 H2]. rewrite E in H1, H2.
  cbn in H1, H2. subst.
  destruct (forward false lps y r) as [[z rest'] r''] eqn:E'.
  destruct (IH y r) as [H1 H2]. rewrite E' in H1, H2. cbn in *. subst. auto.
Qed.

Lemma test_step_keeps_model m met b :
  fst (test_step m met b) = m.
Proof.
  destruct b as [x y]. unfold Evaluate.test_step.
  destruct (forward false (layers P Rng m) x (rng P Rng m)) as [[yp lps'] r'] eqn:E.
  destruct (forward_inference_keeps_state (layers P Rng m) x (rng P Rng m)) as [H1 H2].
  rewrite E in H1, H2. cbn in *. subst. destruct m. reflexivity.
Qed.

Lemma fold_test_step_keeps_model (d : list (T * T)) m met :
  fst (fold_left (fun acc b => test_step (fst acc) (snd acc) b) d (m, met)) = m
  /\ snd (fold_left (fun acc b => test_step (fst acc) (snd acc) b) d (m, met))
     = fold_left (fun met b => snd (test_step m met b)) d met.
Proof.
  revert met. induction d as [| b d IH]; intros met; cbn; [auto |].
  replace (test_step m met b) with (m, snd (test_step m met b)).
  - apply IH.
  - rewrite <- (test_step_keeps_model m met b) at 1. destruct (test_step m met b); reflexivity.
Qed.

End Facts.
End EvalFacts.

Section EvaluatePure.
Variables T P Rng : Type.
Variable conv_op : P -> P -> T -> T.
Variable pool_op : T -> T.
Variable flatten_op : T -> T.
Variable dense_op : P -> P -> T -> T.
Variable activation : Shapes.Activation -> T -> T.
Variable bn_apply : P -> P -> P -> P -> T -> T.
Variable moments : T -> P * P.
Variable ema : P -> P -> P.
Variable dropout_op : Q -> Rng -> T -> T * Rng.
Variable Metrics : Type.
Variable metrics_reset : Metrics.
Variable metrics_update : Metrics -> T -> T -> Metrics.

Local Abbreviation evaluate := (Evaluate.evaluate T P Rng conv_op pool_op flatten_op dense_op
                              activation bn_apply moments ema dropout_op
                              Metrics metrics_reset metrics_update).
Local Abbreviation call := (Evaluate.call T P Rng conv_op pool_op flatten_op dense_op activation
                          bn_apply moments ema dropout_op).

(** C8: [model.evaluate] runs the layers with [training=False]: [Dropout] is
    the identity and [BatchNormalization] normalises with its moving mean and
    variance, neither touching its variables nor the random generator; so an
    evaluation returns the model exactly as it got it (every weight, bias and
    moving statistic), and evaluating twice on the same data gives the same
    metrics. *)
Theorem evaluate_is_pure (m : Evaluate.ModelState P Rng) (data : list (T * T)) :
  (forall rate x r, call false (Evaluate.PDropout P rate) x r = (x, Evaluate.PDropout P rate, r)) /\
  (forall g b mm mv x r,
      call false (Evaluate.PBatchNorm P g b mm mv) x r
      = (bn_apply g b mm mv x, Evaluate.PBatchNorm P g b mm mv, r)) /\
  snd (evaluate m data) = m /\
  fst (evaluate (snd (evaluate m data)) data) = fst (evaluate m data) /\
  snd (evaluate (snd (evaluate m data)) data) = m.
Proof.
  assert (Hev : forall m, snd (evaluate m data) = m).
  { intros m0. unfold Evaluate.evaluate.
    destruct (EvalFacts.fold_test_step_keeps_model T P Rng conv_op pool_op flatten_op dense_op
                activation bn_apply moments ema dropout_op Metrics metrics_update
                data m0 metrics_reset) as [H1 _].
    destruct (fold_left _ data (m0, metrics_reset)) as [m' met]. exact H1. }
  split; [reflexivity |]. split; [reflexivity |].
  split; [apply Hev |].
  rewrite !Hev. split; reflexivity.
Qed.

End EvaluatePure.

(* ================================================================== *)
(** * Further properties of the notebook's calls *)

(* ------------------------------------------------------------------ *)
(** ** The printed summary *)

(** [model.summary()] of the configured model: the output shape and the
    parameter count of every layer (320, 128, 18496, 256, 0, 73856, 512, 0,
    0, 409728, 0, 1290) and the totals 504586, of which 504138 trainable and
    448 non-trainable (the batch-normalisation moving statistics), as the
    notebook prints them. *)
Theorem model_summary_counts :
  Shapes.summary Shapes.model Shapes.input_shape =
    Some [([26; 26; 32], (320, 0)); ([26; 26; 32], (64, 64));
          ([24; 24; 64], (18496, 0)); ([24; 24; 64], (128, 128));
          ([12; 12; 64], (0, 0)); ([10; 10; 128], (73856, 0));
          ([10; 10; 128], (256, 256)); ([5; 5; 128], (0, 0));
          ([3200], (0, 0)); ([128], (409728, 0)); ([128], (0, 0));
          ([10], (1290, 0))]
  /\ option_map Shapes.totals (Shapes.summary Shapes.model Shapes.input_shape)
     = Some (504586, 504138, 448).
Proof. split; reflexivity. Qed.

(* ------------------------------------------------------------------ *)
(** ** [to_categorical] *)

Module CategoricalFacts.

Lemma np_index_bound (n : nat) (L : Z) (j : nat) :
  Labels.np_index n L = Some j ->
  (j < n)%nat /\ Z.of_nat j = (if L <? 0 then L + Z.of_nat n else L).
Proof.
  unfold Labels.np_index.
  destruct ((0 <=? L) && (L <? Z.of_nat n)) eqn:E1.
  - intros H; injection H as <-. apply andb_true_iff in E1 as [A B].
    apply Z.leb_le in A. apply Z.ltb_lt in B.
    replace (L <? 0) with false by (symmetry; apply Z.ltb_ge; lia). lia.
  - destruct ((- Z.of_nat n <=? L) && (L <? 0)) eqn:E2; [| discriminate].
    intros H; injection H as <-. apply andb_true_iff in E2 as [A B].
    apply Z.leb_le in A. rewrite B. apply Z.ltb_lt in B. lia.
Qed.

Lemma set_nth_zeros (n j : nat) :
  (j < n)%nat -> Labels.set_nth (repeat 0 n) j 1 = repeat 0 j ++ 1 :: repeat 0 (n - S j).
Proof.
  revert j. induction n as [| n IH]; intros j Hj; [lia |].
  destruct j as [| j]; cbn; [now rewrite Nat.sub_0_r |].
  f_equal. apply IH. lia.
Qed.

Lemma count_zeros (k : nat) : count_occ Z.eq_dec (repeat 0 k) 1 = 0%nat.
Proof. induction k; cbn; [reflexivity |]. destruct (Z.eq_dec 0 1); [discriminate | exact IHk]. Qed.

Lemma one_hot_row_is_one_hot (n j : nat) :
  (j < n)%nat -> Labels.is_one_hot n (Labels.one_hot_row n j) = true.
Proof.
  intros Hj. unfold Labels.is_one_hot, Labels.one_hot_row.
  rewrite set_nth_zeros by exact Hj.
  rewrite length_app, repeat_length. cbn [length]. rewrite repeat_length.
  rewrite forallb_app, count_occ_app. cbn.
  rewrite !count_zeros.
  assert (Hz : forall k, forallb Labels.zero_or_one (repeat 0 k) = true)
    by (induction k; cbn; auto).
  rewrite !Hz. cbn.
  replace (j + S (n - S j))%nat with n by lia. rewrite Nat.eqb_refl. reflexivity.
Qed.

Lemma argmax_from_zeros (k : nat) (l : list Z) (i bi : nat) (b : Z) :
  0 <= b -> Labels.argmax_from (repeat 0 k ++ l) i bi b = Labels.argmax_from l (i + k) bi b.
Proof.
  revert i. induction k as [| k IH]; intros i Hb; cbn; [now rewrite Nat.add_0_r |].
  replace (b <? 0) with false by (symmetry; apply Z.ltb_ge; lia).
  rewrite IH by exact Hb. f_equal. lia.
Qed.

Lemma argmax_one_hot_row (n j : nat) :
  (j < n)%nat -> Labels.argmax (Labels.one_hot_row n j) = Some j.
Proof.
  intros Hj. unfold Labels.one_hot_row. rewrite set_nth_zeros by exact Hj.
  destruct j as [| j]; cbn.
  - f_equal. rewrite <- (app_nil_r (repeat 0 (n - 1))).
    rewrite argmax_from_zeros by lia. reflexivity.
  - f_equal. rewrite argmax_from_zeros by lia. cbn.
    rewrite <- (app_nil_r (repeat 0 (n - S (S j)))).
    rewrite argmax_from_zeros by lia. cbn. reflexivity.
Qed.

End CategoricalFacts.

(** [to_categorical(y, num_classes)] with a class count [num_classes > 0]
    raises exactly when some label lies outside [[-num_classes, num_classes)]. *)
Theorem to_categorical_fails_iff (ls : list Z) (nc : nat) :
  nc <> 0%nat ->
  Labels.to_categorical ls nc = None <->
  Exists (fun L => ~ (- Z.of_nat nc <= L < Z.of_nat nc)) ls.
Proof.
  intros Hnc. rewrite to_categorical_pos by exact Hnc.
  induction ls as [| L ls IH]; cbn.
  - split; [discriminate | intros H; inversion H].
  - destruct (Labels.np_index nc L) as [j |] eqn:E.
    + destruct (CategoricalFacts.np_index_bound nc L j E) as [Hj Hv].
      destruct (Labels.encode_rows ls nc) as [rows |] eqn:E2.
      * split; [discriminate |]. intros Hex. inversion Hex as [? ? H | ? ? H]; subst.
        -- exfalso. apply H. destruct (L <? 0) eqn:B; [apply Z.ltb_lt in B | apply Z.ltb_ge in B]; lia.
        -- apply IH in H. discriminate.
      * split; [intros _; right; now apply IH | reflexivity].
    + split; [intros _; left | reflexivity].
      intros H. destruct (RunFacts.np_index_some nc L H) as [j Hj]. congruence.
Qed.

(** [to_categorical_fails_iff] with 10 classes on the labels [[3; 10]]. *)
Lemma to_categorical_fails_iff_witness :
  10%nat <> 0%nat
  /\ (Labels.to_categorical [3; 10] 10 = None <->
      Exists (fun L => ~ (- Z.of_nat 10 <= L < Z.of_nat 10)) [3; 10]).
Proof.
  split; [discriminate |].
  apply to_categorical_fails_iff. discriminate.
Defined.

(** A successful [to_categorical] gives one row per label, in order; each
    row is a one-hot vector of length [num_classes] whose [argmax] is the
    label, taken modulo [num_classes] for a negative label ([num_classes > 0]). *)
Theorem to_categorical_rows (ls : list Z) (nc : nat) (rows : list (list Z)) :
  nc <> 0%nat ->
  Labels.to_categorical ls nc = Some rows ->
  Forall2 (fun L r => Labels.is_one_hot nc r = true
                      /\ option_map Z.of_nat (Labels.argmax r)
                         = Some (if L <? 0 then L + Z.of_nat nc else L)) ls rows.
Proof.
  intros Hnc. rewrite to_categorical_pos by exact Hnc.
  revert rows. induction ls as [| L ls IH]; intros rows E; cbn in E.
  - injection E as <-. constructor.
  - destruct (Labels.np_index nc L) as [j |] eqn:Ej; [| discriminate].
    destruct (Labels.encode_rows ls nc) as [rows' |]; [| discriminate].
    injection E as <-.
    destruct (CategoricalFacts.np_index_bound nc L j Ej) as [Hj Hv].
    constructor; [| now apply IH].
    split; [now apply CategoricalFacts.one_hot_row_is_one_hot |].
    rewrite CategoricalFacts.argmax_one_hot_row by exact Hj. cbn. now rewrite Hv.
Qed.

(** [to_categorical_rows] on the labels [[2; -1]] with 10 classes. *)
Lemma to_categorical_rows_witness :
  Labels.to_categorical [2; -1] 10 = Some [Labels.one_hot_row 10 2; Labels.one_hot_row 10 9]
  /\ Forall2 (fun L r => Labels.is_one_hot 10 r = true
                         /\ option_map Z.of_nat (Labels.argmax r)
                            = Some (if L <? 0 then L + Z.of_nat 10 else L))
       [2; -1] [Labels.one_hot_row 10 2; Labels.one_hot_row 10 9].
Proof.
  split; [reflexivity |].
  apply to_categorical_rows; [discriminate | reflexivity].
Defined.

(* ------------------------------------------------------------------ *)
(** ** Preprocessing yields well-formed arrays *)

Module LengthFacts.
Import NumPy.

Lemma one_hot_row_length (n j : nat) : length (Labels.one_hot_row n j) = n.
Proof.
  unfold Labels.one_hot_row. revert j. induction n as [| n IH]; intros j; [reflexivity |].
  destruct j as [| j]; cbn; [now rewrite repeat_length | now rewrite IH].
Qed.

Lemma to_categorical_lengths (ls : list Z) (nc : nat) (rows : list (list Z)) :
  nc <> 0%nat ->
  Labels.to_categorical ls nc = Some rows ->
  length rows = length ls /\ Forall (fun r => length r = nc) rows.
Proof.
  intros Hnc. rewrite to_categorical_pos by exact Hnc.
  revert rows. induction ls as [| L ls IH]; intros rows E; cbn in E.
  - injection E as <-. split; constructor.
  - destruct (Labels.np_index nc L) as [j |]; [| discriminate].
    destruct (Labels.encode_rows ls nc) as [rows' |]; [| discriminate].
    injection E as <-. destruct (IH rows' eq_refl) as [Hl Hf].
    split; [cbn; now rewrite Hl | constructor; [apply one_hot_row_length | exact Hf]].
Qed.

Lemma length_concat_uniform {A} (k : nat) (rows : list (list A)) :
  Forall (fun r => length r = k) rows -> length (concat rows) = (length rows * k)%nat.
Proof.
  induction 1 as [| r rows Hr _ IH]; [reflexivity |].
  cbn. rewrite length_app, Hr, IH. lia.
Qed.

Lemma nth_error_replace_at_other (l : Heap) (i j : nat) vs :
  i <> j -> nth_error (replace_at l i vs) j = nth_error l j.
Proof.
  revert i j. induction l as [| b t IH]; intros i j Hij; [reflexivity |].
  destruct i as [| i], j as [| j]; cbn; try reflexivity; [lia |].
  apply IH. lia.
Qed.

End LengthFacts.

(** Every array the preprocessing cells return is well formed: its buffer
    holds exactly as many values as its shape has elements. For images of
    shape [(n, ...)] with [n * 784] pixels and [m] valid labels, the images
    come back as [(n, 28, 28, 1)] and the labels as [(m, 10)]. *)
Theorem preprocess_outputs_well_formed (rnd : Q -> Q) (h : NumPy.Heap)
    (x y : NumPy.ndarray) (n m : nat) (rest : list nat) (xs : list NumPy.Val) (ls : list Z) :
  NumPy.shape x = n :: rest ->
  NumPy.prod_nat (NumPy.shape x) = (n * 784)%nat ->
  nth_error h (NumPy.buf x) = Some xs ->
  length xs = NumPy.prod_nat (NumPy.shape x) ->
  NumPy.shape y = [m] ->
  nth_error h (NumPy.buf y) = Some (map NumPy.VInt ls) ->
  length ls = m ->
  Forall NumPy.label_ok ls ->
  exists x' y' h' xs' ys',
    NumPy.preprocess rnd x y h = Some ((x', y'), h')
    /\ NumPy.shape x' = [n; 28; 28; 1]%nat /\ NumPy.shape y' = [m; 10]%nat
    /\ nth_error h' (NumPy.buf x') = Some xs' /\ length xs' = NumPy.prod_nat (NumPy.shape x')
    /\ nth_error h' (NumPy.buf y') = Some ys' /\ length ys' = NumPy.prod_nat (NumPy.shape y').
Proof.
  intros Hsx Hpx Hx Hlx Hsy Hy Hm Hok.
  destruct (RunFacts.to_categorical_some ls Hok) as [rows Hrows].
  destruct (LengthFacts.to_categorical_lengths ls 10 rows ltac:(discriminate) Hrows) as [Hlr Hfr].
  rewrite (RunFacts.preprocess_run rnd h x y n rest xs ls rows Hsx Hpx Hx Hy Hrows).
  do 5 eexists. split; [reflexivity |]. cbn [NumPy.shape NumPy.buf].
  rewrite Hsy. split; [reflexivity |].
  split; [destruct m as [| [| m]]; reflexivity |].
  split; [apply TensorFacts.nth_error_replace_at; rewrite !length_app; cbn; lia |].
  split; [rewrite length_map, Hlx, Hpx; cbn; lia |].
  split.
  - rewrite LengthFacts.nth_error_replace_at_other by lia.
    rewrite <- app_assoc, nth_error_app2, Nat.sub_diag by lia. reflexivity.
  - rewrite length_map, (LengthFacts.length_concat_uniform 10 rows Hfr), Hlr, Hm.
    destruct m as [| [| m]]; cbn; lia.
Qed.

(** [preprocess_outputs_well_formed] on one image of 784 pixels and one
    label. *)
Lemma preprocess_outputs_well_formed_witness :
  exists x' y' h' xs' ys',
    NumPy.preprocess (fun q => q)
      {| NumPy.buf := 0; NumPy.shape := [1; 28; 28]%nat |}
      {| NumPy.buf := 1; NumPy.shape := [1%nat] |}
      [repeat (NumPy.VInt 0) 784; [NumPy.VInt 7]] = Some ((x', y'), h')
    /\ NumPy.shape x' = [1; 28; 28; 1]%nat /\ NumPy.shape y' = [1; 10]%nat
    /\ nth_error h' (NumPy.buf x') = Some xs' /\ length xs' = NumPy.prod_nat (NumPy.shape x')
    /\ nth_error h' (NumPy.buf y') = Some ys' /\ length ys' = NumPy.prod_nat (NumPy.shape y').
Proof.
  apply (preprocess_outputs_well_formed (fun q => q) _ _ _ 1 1 [28; 28]%nat
           (repeat (NumPy.VInt 0) 784) [7]);
    try reflexivity.
  repeat constructor; unfold NumPy.label_ok; lia.
Defined.

(* ------------------------------------------------------------------ *)
(** ** Sampling rows with an index array *)

Module SampleFacts.
Import NumPy.

Lemma mapM_lift_some {B} (f : Z -> option B) (l : list Z) (h : Heap) :
  (forall i, In i l -> exists j, f i = Some j) ->
  exists js, mapM (fun i => lift (f i)) l h = Some (js, h)
             /\ Forall2 (fun i j => f i = Some j) l js.
Proof.
  induction l as [| a l IH]; intros H.
  - exists []. split; [reflexivity | constructor].
  - destruct (H a (or_introl eq_refl)) as [j Hj].
    destruct (IH (fun i Hi => H i (or_intror Hi))) as [js [Hm Hf]].
    exists (j :: js). split; [| now constructor].
    cbn [mapM]. unfold bind, lift at 1. rewrite Hj, Hm. reflexivity.
Qed.

Lemma mapM_lift_none {B} (f : Z -> option B) (l : list Z) (h : Heap) :
  Exists (fun i => f i = None) l -> mapM (fun i => lift (f i)) l h = None.
Proof.
  induction 1 as [a l Ha | a l _ IH]; cbn [mapM]; unfold bind, lift at 1.
  - now rewrite Ha.
  - destruct (f a); [| reflexivity]. fold (lift (f a)). now rewrite IH.
Qed.

Lemma in_range_dec (n : nat) (i : Z) :
  {- Z.of_nat n <= i < Z.of_nat n} + {~ (- Z.of_nat n <= i < Z.of_nat n)}.
Proof.
  destruct (Z_le_dec (- Z.of_nat n) i); [| right; lia].
  destruct (Z_lt_dec i (Z.of_nat n)); [left | right]; lia.
Qed.










End SampleFacts.

(** [a[idx]] on an array of [n] rows raises [IndexError] exactly when some
    index lies outside [[-n, n)]; otherwise it returns a new array. *)
Theorem take_rows_fails_iff (h : NumPy.Heap) (a : NumPy.ndarray) (idx : list Z)
    (n : nat) (rest : list nat) (vs : list NumPy.Val) :
  NumPy.shape a = n :: rest ->
  nth_error h (NumPy.buf a) = Some vs ->
  NumPy.take_rows a idx h = None <->
  Exists (fun i => ~ (- Z.of_nat n <= i < Z.of_nat n)) idx.
Proof.
  intros Hs Hr. unfold NumPy.take_rows, NumPy.shape0. rewrite Hs.
  unfold NumPy.bind at 1, NumPy.ret at 1.
  unfold NumPy.bind at 1, NumPy.read at 1. rewrite Hr.
  destruct (Forall_Exists_dec _ (SampleFacts.in_range_dec n) idx) as [Hall | Hex].
  - destruct (SampleFacts.mapM_lift_some (Labels.np_index n) idx h) as [js [Hm _]].
    { intros i Hi. apply RunFacts.np_index_some.
      rewrite Forall_forall in Hall. now apply Hall. }
    unfold NumPy.bind at 1. rewrite Hm.
    split; [discriminate |].
    intros Hex. exfalso. apply Exists_exists in Hex as [i [Hi Hn]].
    rewrite Forall_forall in Hall. exact (Hn (Hall i Hi)).
  - unfold NumPy.bind at 1. rewrite (SampleFacts.mapM_lift_none (Labels.np_index n) idx h).
    + split; [intros _; exact Hex | reflexivity].
    + eapply Exists_impl; [| exact Hex]. intros i Hi. now apply RunFacts.np_index_none.
Qed.

(** [take_rows_fails_iff] on two rows indexed at 2. *)
Lemma take_rows_fails_iff_witness :
  NumPy.take_rows {| NumPy.buf := 0; NumPy.shape := [2%nat] |} [2]
    [[NumPy.VInt 4; NumPy.VInt 5]] = None <->
  Exists (fun i => ~ (- Z.of_nat 2 <= i < Z.of_nat 2)) [2].
Proof. apply (take_rows_fails_iff _ _ _ 2 [] [NumPy.VInt 4; NumPy.VInt 5]); reflexivity. Defined.



(* ------------------------------------------------------------------ *)
(** ** Batching and early termination in [fit] *)

Module BatchFacts.
Import Fit.

Lemma slices_spec {A} (bs fuel : nat) (l : list A) :
  (0 < bs)%nat -> (length l <= fuel)%nat ->
  concat (slices fuel bs l) = l
  /\ length (slices fuel bs l) = ((length l + bs - 1) / bs)%nat
  /\ Forall (fun b => 1 <= length b <= bs)%nat (slices fuel bs l).
Proof.
  intros Hbs. revert l. induction fuel as [| f IH]; intros l Hl.
  - destruct l; [| cbn in Hl; lia]. cbn.
    rewrite Nat.div_small by lia. split; [| split]; constructor.
  - destruct l as [| a t].
    + cbn. rewrite Nat.div_small by lia. split; [| split]; constructor.
    + cbn [slices]. set (l := a :: t) in *.
      assert (Hlen : (1 <= length l)%nat) by (cbn; lia).
      destruct (IH (skipn bs l)) as [Hc [Hn Hf]];
        [rewrite length_skipn; lia |].
      split; [cbn [concat]; now rewrite Hc, firstn_skipn |].
      split.
      * cbn [length]. rewrite Hn, length_skipn.
        destruct (Nat.le_gt_cases (length l) bs) as [Hle | Hgt].
        -- replace (length l - bs)%nat with 0%nat by lia.
           rewrite Nat.div_small by lia.
           replace (length l + bs - 1)%nat with ((length l - 1) + 1 * bs)%nat by lia.
           rewrite Nat.div_add, Nat.div_small by lia. reflexivity.
        -- replace (length l + bs - 1)%nat with ((length l - bs + bs - 1) + 1 * bs)%nat by lia.
           rewrite Nat.div_add by lia. lia.
      * constructor; [rewrite length_firstn; lia | exact Hf].
Qed.

Lemma map_nth_seq {A} (d : A) (data : list A) :
  map (fun i => nth i data d) (seq 0 (length data)) = data.
Proof.
  induction data as [| a t IH]; [reflexivity |].
  cbn [length seq map nth]. f_equal.
  rewrite <- seq_shift, map_map. exact IH.
Qed.

Lemma run_epoch_stop_iff {State Batch} (tf : State -> Batch -> State * LossVal)
    (cbs : list Callback) (bs : list Batch) (s : State) (t : Tracker) :
  existsb (callback_eqb TerminateOnNaN) cbs = true ->
  non_finite (tracker_result t) = false ->
  let '(_, t', stop) := run_epoch State Batch tf cbs bs s t in
  stop = non_finite (tracker_result t').
Proof.
  intros Hcb. revert s t. induction bs as [| b bs IH]; intros s t Ht; cbn; [now rewrite Ht |].
  destruct (tf s b) as [s' l]. unfold stop_training_after. rewrite Hcb. cbn [andb].
  destruct (non_finite (tracker_result (tracker_update t l))) eqn:E; [now rewrite E |].
  now apply IH.
Qed.

Lemma fit_loop_history {State Batch} (tf : State -> Batch -> State * LossVal)
    (batches : nat -> list Batch) (cbs : list Callback) (k e : nat) (s : State)
    (hist0 : list LossVal) :
  existsb (callback_eqb TerminateOnNaN) cbs = true ->
  let hist := snd (fit_loop State Batch tf batches cbs k e s hist0) in
  (exists new, hist = hist0 ++ new
               /\ Forall (fun l => non_finite l = false) new /\ length new = k)
  \/ (exists fin l, hist = hist0 ++ fin ++ [l]
                    /\ Forall (fun l => non_finite l = false) fin
                    /\ non_finite l = true /\ (length fin < k)%nat).
Proof.
  intros Hcb. revert e s hist0. induction k as [| k IH]; intros e s hist0; cbn [fit_loop].
  - left. exists []. rewrite app_nil_r. split; [reflexivity | split; [constructor | reflexivity]].
  - pose proof (run_epoch_stop_iff tf cbs (batches e) s tracker_reset Hcb eq_refl) as Hst.
    destruct (run_epoch State Batch tf cbs (batches e) s tracker_reset) as [[s' t'] stop].
    destruct stop.
    + right. exists [], (tracker_result t'). cbn.
      split; [reflexivity | split; [constructor | split; [now symmetry | lia]]].
    + destruct (IH (S e) s' (hist0 ++ [tracker_result t']))
        as [[new [Hh [Hf Hl]]] | [fin [l [Hh [Hf [Hl Hk]]]]]].
      * left. exists (tracker_result t' :: new). cbn [snd] in Hh |- *. rewrite Hh, <- app_assoc.
        split; [reflexivity | split; [constructor; [now symmetry | exact Hf] | cbn; lia]].
      * right. exists (tracker_result t' :: fin), l. cbn [snd] in Hh |- *. rewrite Hh, <- app_assoc.
        split; [reflexivity | split; [constructor; [now symmetry | exact Hf] |]].
        split; [exact Hl | cbn; lia].
Qed.

End BatchFacts.

(** The data handler's batches of a list of samples, for [batch_size > 0],
    partition it in order: their concatenation is the list, there are
    [ceil(len / batch_size)] of them, and each holds between 1 and
    [batch_size] samples (only the last may be partial). *)
Theorem make_batches_partition {A} (bs : nat) (l : list A) :
  (0 < bs)%nat ->
  concat (Fit.make_batches bs l) = l
  /\ length (Fit.make_batches bs l) = ((length l + bs - 1) / bs)%nat
  /\ Forall (fun b => 1 <= length b <= bs)%nat (Fit.make_batches bs l).
Proof. intros Hbs. apply BatchFacts.slices_spec; [exact Hbs | lia]. Qed.

(** [make_batches_partition] on 300 samples with the notebook's
    [batch_size = 128]: 3 batches. *)
Lemma make_batches_partition_witness :
  (0 < Fit.batch_size)%nat
  /\ concat (Fit.make_batches Fit.batch_size (seq 0 300)) = seq 0 300
  /\ length (Fit.make_batches Fit.batch_size (seq 0 300))
     = ((length (seq 0 300) + Fit.batch_size - 1) / Fit.batch_size)%nat
  /\ Forall (fun b => 1 <= length b <= Fit.batch_size)%nat
       (Fit.make_batches Fit.batch_size (seq 0 300)).
Proof.
  split; [unfold Fit.batch_size; lia |].
  apply make_batches_partition. unfold Fit.batch_size. lia.
Defined.

(** In every epoch, when the shuffled index vector is a permutation of
    [0 .. n-1], the epoch's batches together hold every sample exactly once:
    their concatenation is a permutation of the data. *)
Theorem epoch_batches_cover_data {A} (bs : nat) (perm : list nat) (d : A) (data : list A) :
  (0 < bs)%nat ->
  Permutation perm (seq 0 (length data)) ->
  Permutation (concat (Fit.epoch_batches bs perm d data)) data.
Proof.
  intros Hbs Hp. unfold Fit.epoch_batches.
  destruct (BatchFacts.slices_spec bs (length (map (fun i => nth i data d) perm))
             (map (fun i => nth i data d) perm) Hbs (le_n _)) as [Hc _].
  unfold Fit.make_batches.
  rewrite Hc.
  transitivity (map (fun i => nth i data d) (seq 0 (length data))).
  - now apply Permutation_map.
  - rewrite BatchFacts.map_nth_seq. reflexivity.
Qed.

(** [epoch_batches_cover_data] on three samples shuffled as [[2; 0; 1]] in
    batches of 2. *)
Lemma epoch_batches_cover_data_witness :
  Permutation [2; 0; 1]%nat (seq 0 (length [10; 20; 30]%nat))
  /\ Permutation (concat (Fit.epoch_batches 2 [2; 0; 1]%nat 0%nat [10; 20; 30]%nat))
       [10; 20; 30]%nat.
Proof.
  assert (Hp : Permutation [2; 0; 1]%nat (seq 0 (length [10; 20; 30]%nat)))
    by exact (Permutation_cons_append [0; 1]%nat 2%nat).
  split; [exact Hp |].
  apply epoch_batches_cover_data; [lia | exact Hp].
Defined.

(** With [TerminateOnNaN] among the callbacks, the [History] that [fit]
    returns is either one finite loss per epoch, or finite losses followed
    by a single non-finite one, after which no further epoch runs. *)
Theorem fit_terminate_on_nan_history {State Batch : Type}
    (tf : State -> Batch -> State * Fit.LossVal) (batches : nat -> list Batch)
    (cbs : list Fit.Callback) (epochs : nat) (s : State) :
  In Fit.TerminateOnNaN cbs ->
  let hist := snd (Fit.fit tf batches cbs epochs s) in
  (Forall (fun l => Fit.non_finite l = false) hist /\ length hist = epochs)
  \/ (exists fin l, hist = fin ++ [l]
                    /\ Forall (fun l => Fit.non_finite l = false) fin
                    /\ Fit.non_finite l = true /\ (length fin < epochs)%nat).
Proof.
  intros Hin. cbn zeta. unfold Fit.fit.
  assert (Hcb : existsb (Fit.callback_eqb Fit.TerminateOnNaN) cbs = true)
    by (apply existsb_exists; exists Fit.TerminateOnNaN; split; [exact Hin | reflexivity]).
  destruct (BatchFacts.fit_loop_history tf batches cbs epochs 0 s [] Hcb)
    as [[new [Hh [Hf Hl]]] | [fin [l [Hh [Hf [Hl Hk]]]]]]; cbn [app] in Hh; rewrite Hh.
  - left. split; assumption.
  - right. exists fin, l. repeat split; assumption.
Qed.

(** [fit_terminate_on_nan_history] with a loss that is NaN from the first
    batch: the history is [[nan]]. *)
Lemma fit_terminate_on_nan_history_witness :
  In Fit.TerminateOnNaN [Fit.TerminateOnNaN]
  /\ ((Forall (fun l => Fit.non_finite l = false)
         (snd (Fit.fit (fun (s : unit) (_ : nat) => (s, Fit.NaN)) (fun _ => [0; 1]%nat)
                 [Fit.TerminateOnNaN] 20 tt))
       /\ length (snd (Fit.fit (fun (s : unit) (_ : nat) => (s, Fit.NaN)) (fun _ => [0; 1]%nat)
                         [Fit.TerminateOnNaN] 20 tt)) = 20%nat)
      \/ (exists fin l,
            snd (Fit.fit (fun (s : unit) (_ : nat) => (s, Fit.NaN)) (fun _ => [0; 1]%nat)
                   [Fit.TerminateOnNaN] 20 tt) = fin ++ [l]
            /\ Forall (fun l => Fit.non_finite l = false) fin
            /\ Fit.non_finite l = true /\ (length fin < 20)%nat)).
Proof.
  split; [left; reflexivity |].
  apply (fit_terminate_on_nan_history (fun (s : unit) (_ : nat) => (s, Fit.NaN))
           (fun _ => [0; 1]%nat) [Fit.TerminateOnNaN] 20 tt).
  left; reflexivity.
Defined.

Section EvaluateScores.
Variables T P Rng : Type.
Variable conv_op : P -> P -> T -> T.
Variable pool_op : T -> T.
Variable flatten_op : T -> T.
Variable dense_op : P -> P -> T -> T.
Variable activation : Shapes.Activation -> T -> T.
Variable bn_apply : P -> P -> P -> P -> T -> T.
Variable moments : T -> P * P.
Variable ema : P -> P -> P.
Variable dropout_op : Q -> Rng -> T -> T * Rng.
Variable Metrics : Type.
Variable metrics_reset : Metrics.
Variable metrics_update : Metrics -> T -> T -> Metrics.

Local Abbreviation evaluate := (Evaluate.evaluate T P Rng conv_op pool_op flatten_op dense_op
                              activation bn_apply moments ema dropout_op
                              Metrics metrics_reset metrics_update).
Local Abbreviation forward := (Evaluate.forward T P Rng conv_op pool_op flatten_op dense_op
                             activation bn_apply moments ema dropout_op).

(** The metrics [model.evaluate] reports are accumulated, batch by batch and
    in order, from the labels and the inference-mode predictions of the
    model it was given: every test batch is scored by the same network. *)
Theorem evaluate_scores_with_given_model (m : Evaluate.ModelState P Rng)
    (data : list (T * T)) :
  fst (evaluate m data)
  = fold_left (fun met (b : T * T) =>
                 metrics_update met (snd b)
                   (fst (fst (forward false (Evaluate.layers P Rng m) (fst b)
                                (Evaluate.rng P Rng m))))) data metrics_reset.
Proof.
  unfold Evaluate.evaluate.
  destruct (EvalFacts.fold_test_step_keeps_model T P Rng conv_op pool_op flatten_op dense_op
              activation bn_apply moments ema dropout_op Metrics metrics_update
              data m metrics_reset) as [_ H2].
  destruct (fold_left _ data (m, metrics_reset)) as [m' met]. cbn [snd] in H2. cbn [fst].
  rewrite H2. clear m' met H2. generalize metrics_reset.
  induction data as [| [x y] d IH]; intros met0; cbn [fold_left]; [reflexivity |].
  rewrite <- IH. f_equal. unfold Evaluate.test_step. cbn [fst snd].
  destruct (forward false (Evaluate.layers P Rng m) x (Evaluate.rng P Rng m))
    as [[yp lps'] r']. reflexivity.
Qed.

End EvaluateScores.

(* ------------------------------------------------------------------ *)
(** ** The softmax of the output layer *)

Module SoftmaxFacts.
Import Softmax.
Local Open Scope Q_scope.
Local Abbreviation qn k := (inject_Z (Z.of_nat k)).

Lemma qn_add (a b : nat) : qn (a + b) == qn a + qn b.
Proof. rewrite Nat2Z.inj_add, inject_Z_plus. reflexivity. Qed.

Lemma qn_le (a b : nat) : (a <= b)%nat -> qn a <= qn b.
Proof. intros H. rewrite <- Zle_Qle. lia. Qed.

Lemma qn_nonneg (a : nat) : 0 <= qn a.
Proof. change 0 with (qn 0). apply qn_le. lia. Qed.

Lemma row_max_spec (xs : list Q) :
  xs <> [] -> In (row_max xs) xs /\ Forall (fun x => x <= row_max xs) xs.
Proof.
  destruct xs as [| x0 xs]; [contradiction |]. intros _. unfold row_max. cbn [hd tl].
  assert (H : forall a, (fold_left Qmax xs a = a \/ In (fold_left Qmax xs a) xs)
                        /\ a <= fold_left Qmax xs a
                        /\ Forall (fun x => x <= fold_left Qmax xs a) xs).
  { induction xs as [| y xs IH]; intros a; cbn [fold_left].
    - split; [now left | split; [apply Qle_refl | constructor]].
    - destruct (IH (Qmax a y)) as [Hin [Hle Hf]].
      split; [| split; [| constructor; [| exact Hf]]].
      + destruct Hin as [Hin | Hin]; [| right; now right].
        rewrite Hin. unfold Qmax, GenericMinMax.gmax.
        destruct (a ?= y); [now left | right; now left | now left].
      + eapply Qle_trans; [apply Q.le_max_l | exact Hle].
      + eapply Qle_trans; [apply Q.le_max_r | exact Hle]. }
  destruct (H x0) as [Hin [Hle Hf]]. split.
  - destruct Hin as [Hin | Hin]; [left; now rewrite Hin | now right].
  - constructor; assumption.
Qed.

Lemma sumQ_perm (l1 l2 : list Q) : Permutation l1 l2 -> sumQ l1 == sumQ l2.
Proof.
  induction 1 as [| x l1 l2 _ IH | x y l | l1 l2 l3 _ IH1 _ IH2]; cbn [sumQ fold_right].
  - reflexivity.
  - fold (sumQ l1) (sumQ l2). rewrite IH. reflexivity.
  - lra.
  - fold (sumQ l1) (sumQ l2) (sumQ l3) in *. now rewrite IH1.
Qed.

Lemma sumQ_app (l1 l2 : list Q) : sumQ (l1 ++ l2) == sumQ l1 + sumQ l2.
Proof.
  induction l1 as [| x l1 IH]; cbn [app sumQ fold_right]; [fold (sumQ l2); lra |].
  fold (sumQ (l1 ++ l2)) (sumQ l1). rewrite IH. lra.
Qed.

Lemma sumQ_bounds (l : list Q) :
  Forall (fun v => 0 <= v <= 1) l -> 0 <= sumQ l <= qn (length l).
Proof.
  induction 1 as [| v l Hv _ IH]; [cbn; split; discriminate |].
  cbn [sumQ fold_right length]. fold (sumQ l).
  rewrite Nat2Z.inj_succ, <- Z.add_1_r, inject_Z_plus. change (inject_Z 1) with 1. lra.
Qed.

Lemma sumQ_ge_member (l : list Q) (v : Q) :
  Forall (fun v => 0 <= v) l -> In v l -> v <= sumQ l.
Proof.
  induction 1 as [| w l Hw Hl IH]; [intros [] |].
  intros [<- | Hin]; cbn [sumQ fold_right]; fold (sumQ l).
  - assert (0 <= sumQ l).
    { clear - Hl. induction Hl; cbn; [apply Qle_refl |]. fold (sumQ l). lra. }
    lra.
  - specialize (IH Hin). lra.
Qed.

Section Bounds.
Variables rnd fexp : Q -> Q.
Variables u eta : Q.
Hypothesis mono : forall p q, p <= q -> rnd p <= rnd q.
Hypothesis idem : forall q, rnd (rnd q) == rnd q.
Hypothesis exact_int : forall z, (0 <= z <= 2 ^ 24)%Z -> rnd (inject_Z z) == inject_Z z.
Hypothesis exp_float : forall d, rnd (fexp d) == fexp d.
Hypothesis exp_range : forall d, d <= 0 -> 0 <= fexp d <= 1.
Hypothesis exp_zero : forall d, d == 0 -> fexp d == 1.
Hypothesis u_nonneg : 0 <= u.
Hypothesis eta_nonneg : 0 <= eta.
Hypothesis err : forall q, 0 <= q <= float32_max ->
  q * (1 - u) - eta <= rnd q <= q * (1 + u) + eta.

Lemma rnd_compat p q : p == q -> rnd p == rnd q.
Proof. intros E. apply Qle_antisym; apply mono; rewrite E; apply Qle_refl. Qed.

Lemma rnd_0 : rnd 0 == 0.
Proof. apply (exact_int 0). lia. Qed.

Lemma rnd_1 : rnd 1 == 1.
Proof. apply (exact_int 1). lia. Qed.

Lemma rnd_unit q : 0 <= q <= 1 -> 0 <= rnd q <= 1.
Proof.
  intros [H0 H1]. split.
  - rewrite <- rnd_0. now apply mono.
  - rewrite <- rnd_1. now apply mono.
Qed.

Lemma tree_sum_lower (es : list Q) (t : rtree) :
  Forall (fun v => 0 <= v <= 1 /\ rnd v == v) es ->
  0 <= tree_sum rnd t es /\ rnd (tree_sum rnd t es) == tree_sum rnd t es
  /\ Forall (fun i => nth i es 0 <= tree_sum rnd t es) (leaves t).
Proof.
  intros Hes.
  assert (Hnth : forall i, 0 <= nth i es 0 <= 1 /\ rnd (nth i es 0) == nth i es 0).
  { intros i. destruct (nth_in_or_default i es 0) as [Hin | ->].
    - rewrite Forall_forall in Hes. now apply Hes.
    - split; [split; discriminate | apply rnd_0]. }
  induction t as [i | l IHl r IHr]; cbn [tree_sum leaves].
  - destruct (Hnth i) as [[H0 _] Hr]. split; [exact H0 | split; [exact Hr |]].
    constructor; [apply Qle_refl | constructor].
  - destruct IHl as [Hl0 [Hlr Hlf]], IHr as [Hr0 [Hrr Hrf]].
    split; [rewrite <- rnd_0; apply mono; lra |].
    split; [apply idem |].
    apply Forall_app. split.
    + eapply Forall_impl; [| exact Hlf]. intros i Hi.
      eapply Qle_trans; [exact Hi |]. rewrite <- Hlr at 1. apply mono. lra.
    + eapply Forall_impl; [| exact Hrf]. intros i Hi.
      eapply Qle_trans; [exact Hi |]. rewrite <- Hrr at 1. apply mono. lra.
Qed.

Lemma leaves_nonempty t : (1 <= length (leaves t))%nat.
Proof. induction t; cbn; [lia | rewrite length_app; lia]. Qed.

Lemma tree_sum_error (es : list Q) (N : nat) (t : rtree) :
  Forall (fun v => 0 <= v <= 1 /\ rnd v == v) es ->
  qn N + 1 <= float32_max ->
  (qn N - 1) * (u * (qn N + 1) + eta) <= 1 ->
  (length (leaves t) <= N)%nat ->
  let E := sumQ (map (fun i => nth i es 0) (leaves t)) in
  let c := u * (qn N + 1) + eta in
  E - (qn (length (leaves t)) - 1) * c <= tree_sum rnd t es
  <= E + (qn (length (leaves t)) - 1) * c.
Proof.
  intros Hes Hmax HD. cbv zeta.
  assert (Hnth : forall i, 0 <= nth i es 0 <= 1).
  { intros i. destruct (nth_in_or_default i es 0) as [Hin | ->].
    - rewrite Forall_forall in Hes. now apply Hes.
    - split; discriminate. }
  assert (Hc : 0 <= u * (qn N + 1) + eta).
  { pose proof (qn_nonneg N). nra. }
  induction t as [i | l IHl r IHr]; intros Hk; cbn [tree_sum leaves length map sumQ fold_right].
  - change (qn 1) with 1. fold (sumQ []). cbn [sumQ fold_right]. lra.
  - cbn [leaves] in Hk. rewrite length_app in Hk |- *. rewrite map_app, sumQ_app, qn_add.
    pose proof (leaves_nonempty l) as Hl1. pose proof (leaves_nonempty r) as Hr1.
    specialize (IHl ltac:(lia)). specialize (IHr ltac:(lia)).
    set (kl := length (leaves l)) in *. set (kr := length (leaves r)) in *.
    set (El := sumQ (map (fun i => nth i es 0) (leaves l))) in *.
    set (Er := sumQ (map (fun i => nth i es 0) (leaves r))) in *.
    set (c := u * (qn N + 1) + eta) in *.
    assert (HEl : 0 <= El <= qn kl).
    { unfold El, kl. rewrite <- (length_map (fun i => nth i es 0) (leaves l)).
      apply sumQ_bounds. apply Forall_forall. intros v Hv.
      apply in_map_iff in Hv as [i [<- _]]. apply Hnth. }
    assert (HEr : 0 <= Er <= qn kr).
    { unfold Er, kr. rewrite <- (length_map (fun i => nth i es 0) (leaves r)).
      apply sumQ_bounds. apply Forall_forall. intros v Hv.
      apply in_map_iff in Hv as [i [<- _]]. apply Hnth. }
    destruct (tree_sum_lower es l Hes) as [Hl0 _].
    destruct (tree_sum_lower es r Hes) as [Hr0 _].
    set (a := tree_sum rnd l es) in *. set (b := tree_sum rnd r es) in *.
    assert (HklN : qn kl + qn kr <= qn N) by (rewrite <- qn_add; now apply qn_le).
    assert (Hkl1 : 1 <= qn kl) by (change 1 with (qn 1); now apply qn_le).
    assert (Hkr1 : 1 <= qn kr) by (change 1 with (qn 1); now apply qn_le).
    assert (Hq : a + b <= qn N + 1).
    { assert (Hm : (qn kl + qn kr - 2) * c <= (qn N - 1) * c).
      { assert (0 <= (qn N - qn kl - qn kr + 1) * c) by (apply Qmult_le_0_compat; lra). lra. }
      destruct IHl as [_ IHl]. destruct IHr as [_ IHr]. lra. }
    assert (Hqm : 0 <= a + b <= float32_max) by lra.
    destruct (err (a + b) Hqm) as [Elo Ehi].
    assert (Hu : (a + b) * u <= (qn N + 1) * u) by nra.
    assert (Hcd : c = u * (qn N + 1) + eta) by reflexivity.
    assert (Hup : rnd (a + b) <= a + b + c) by (rewrite Hcd; nra).
    assert (Hlo : a + b - c <= rnd (a + b)) by (rewrite Hcd; nra).
    destruct IHl as [IHl1 IHl2]. destruct IHr as [IHr1 IHr2].
    split; nra.
Qed.

Lemma one_le_float32_max : 1 <= float32_max.
Proof. unfold float32_max, Qle. cbn. lia. Qed.

Lemma sum_scaled (es : list Q) (r : Q) :
  0 <= r <= 1 -> Forall (fun e => 0 <= e <= 1) es ->
  ((1 - u) * r * sumQ es - qn (length es) * eta
     <= sumQ (map (fun e => rnd (e * r)) es)
     <= (1 + u) * r * sumQ es + qn (length es) * eta)
  /\ Forall (fun p => 0 <= p <= 1) (map (fun e => rnd (e * r)) es).
Proof.
  intros Hr. induction 1 as [| e es He _ [IH IHf]].
  - cbn [map sumQ fold_right length]. change (qn 0) with 0. split; [lra | constructor].
  - cbn [map sumQ fold_right length]. fold (sumQ es) (sumQ (map (fun e => rnd (e * r)) es)) in *.
    rewrite Nat2Z.inj_succ, <- Z.add_1_r, inject_Z_plus. change (inject_Z 1) with 1.
    assert (Her : 0 <= e * r <= 1).
    { assert (0 <= e * r) by (apply Qmult_le_0_compat; lra).
      assert (0 <= (1 - e) * r) by (apply Qmult_le_0_compat; lra). lra. }
    pose proof one_le_float32_max.
    destruct (err (e * r) ltac:(lra)) as [Lo Hi].
    split; [split; lra |]. constructor; [now apply rnd_unit | exact IHf].
Qed.

Lemma softmax_row_bounds (t : rtree) (xs : list Q) :
  xs <> [] -> Permutation (leaves t) (seq 0 (length xs)) ->
  qn (length xs) + 1 <= float32_max ->
  (qn (length xs) - 1) * (u * (qn (length xs) + 1) + eta) <= 1 ->
  u <= 1 ->
  Forall (fun d => d <= 0) (exp_args rnd xs)
  /\ length (softmax_row rnd fexp t xs) = length xs
  /\ Forall (fun p => 0 <= p <= 1) (softmax_row rnd fexp t xs)
  /\ Qabs (sumQ (softmax_row rnd fexp t xs) - 1)
     <= (qn (length xs) * qn (length xs) + 5) * u + 4 * qn (length xs) * eta.
Proof.
  intros Hne Hperm Hmax HD Hu1.
  assert (Hargs : Forall (fun d => d <= 0) (exp_args rnd xs)).
  { destruct (row_max_spec xs Hne) as [_ Hle]. unfold exp_args.
    apply Forall_map. eapply Forall_impl; [| exact Hle]. intros x Hx. cbv beta in *.
    rewrite <- rnd_0. apply mono. lra. }
  split; [exact Hargs |].
  unfold softmax_row. cbv zeta.
  set (es := map fexp (exp_args rnd xs)).
  assert (Hes : Forall (fun v => 0 <= v <= 1 /\ rnd v == v) es).
  { unfold es. apply Forall_map. eapply Forall_impl; [| exact Hargs]. intros d Hd.
    split; [now apply exp_range | apply exp_float]. }
  assert (Hlen : length es = length xs) by (unfold es, exp_args; now rewrite !length_map).
  split; [now rewrite length_map |].
  set (n := length xs) in *.
  assert (Hone : In (fexp (rnd (row_max xs - row_max xs))) es).
  { unfold es, exp_args. apply in_map. apply (in_map (fun x => rnd (x - row_max xs))).
    now apply row_max_spec. }
  destruct (In_nth es _ 0 Hone) as [j [Hj Hjv]].
  assert (Hj1 : nth j es 0 == 1).
  { rewrite Hjv. apply exp_zero. rewrite (rnd_compat _ 0) by lra. apply rnd_0. }
  assert (Hjt : In j (leaves t)).
  { apply (Permutation_in _ (Permutation_sym Hperm)). apply in_seq. lia. }
  destruct (tree_sum_lower es t Hes) as [Hs0 [_ Hsf]].
  set (s := tree_sum rnd t es) in *.
  assert (Hs1 : 1 <= s).
  { rewrite Forall_forall in Hsf. specialize (Hsf j Hjt). lra. }
  assert (HE : sumQ (map (fun i => nth i es 0) (leaves t)) == sumQ es).
  { rewrite (sumQ_perm _ _ (Permutation_map _ Hperm)). rewrite <- Hlen, BatchFacts.map_nth_seq.
    reflexivity. }
  assert (Hlt : length (leaves t) = n) by (rewrite (Permutation_length Hperm); apply length_seq).
  pose proof (tree_sum_error es n t Hes Hmax HD ltac:(lia)) as Herr. cbv zeta in Herr.
  rewrite Hlt, HE in Herr. fold s in Herr.
  assert (Hn1 : 1 <= qn n).
  { change 1 with (qn 1). apply qn_le. destruct xs; [contradiction | cbn in n; unfold n; lia]. }
  assert (HEb : 0 <= sumQ es <= qn n).
  { rewrite <- Hlen. apply sumQ_bounds. eapply Forall_impl; [| exact Hes]. now intros v [Hv _]. }
  set (E := sumQ es) in *.
  set (D := (qn n - 1) * (u * (qn n + 1) + eta)) in *.
  assert (Hdd : D = (qn n - 1) * (u * (qn n + 1) + eta)) by reflexivity.
  assert (HD0 : 0 <= D).
  { rewrite Hdd. apply Qmult_le_0_compat; [lra |]. assert (0 <= u * (qn n + 1)) by nra. lra. }
  set (w := 1 / s).
  assert (Hws : w * s == 1).
  { unfold w, Qdiv. rewrite Qmult_1_l, Qmult_comm. apply Qmult_inv_r. intros H. lra. }
  assert (Hw : 0 <= w <= 1) by (split; nra).
  assert (HwE : 1 - D <= w * E <= 1 + D).
  { destruct Herr as [Elo Ehi].
    assert (0 <= w * (s + D - E)) by (apply Qmult_le_0_compat; lra).
    assert (0 <= w * (E - (s - D))) by (apply Qmult_le_0_compat; lra).
    assert (0 <= (1 - w) * D) by (apply Qmult_le_0_compat; lra).
    split; lra. }
  pose proof one_le_float32_max as Hf1.
  destruct (err w ltac:(lra)) as [Rlo Rhi].
  assert (Hr : 0 <= rnd w <= 1) by now apply rnd_unit.
  set (r := rnd w) in *.
  destruct (sum_scaled es r Hr ltac:(eapply Forall_impl; [| exact Hes]; now intros v [Hv _]))
    as [[Plo Phi] Pf].
  rewrite Hlen in Plo, Phi. change (sumQ es) with E in Plo, Phi.
  change (length xs) with n in Plo, Phi.
  split; [exact Pf |].
  set (P := sumQ (map (fun e => rnd (e * r)) es)) in *.
  assert (A1 : 0 <= u * (1 - u)) by (apply Qmult_le_0_compat; lra).
  assert (A2 : 0 <= u * (1 - D)) by (apply Qmult_le_0_compat; lra).
  assert (A3 : 0 <= u * u * (1 - D)) by (apply Qmult_le_0_compat; [nra | lra]).
  assert (A4 : 0 <= u * D) by (apply Qmult_le_0_compat; lra).
  assert (A5 : 0 <= eta * (qn n - E)) by (apply Qmult_le_0_compat; lra).
  assert (A6 : 0 <= u * (eta * E)) by (apply Qmult_le_0_compat; [lra | nra]).
  assert (A7 : 0 <= (1 - u) * (eta * E)) by (apply Qmult_le_0_compat; [lra | nra]).
  assert (U1 : 0 <= (1 + u) * E * (w * (1 + u) + eta - r)) by (apply Qmult_le_0_compat; [nra | lra]).
  assert (U2 : 0 <= (1 + u) * (1 + u) * (1 + D - w * E)) by (apply Qmult_le_0_compat; [nra | lra]).
  assert (L1 : 0 <= (1 - u) * E * (r - (w * (1 - u) - eta))) by (apply Qmult_le_0_compat; [nra | lra]).
  assert (L2 : 0 <= (1 - u) * (1 - u) * (w * E - (1 - D))) by (apply Qmult_le_0_compat; [nra | lra]).
  assert (S1 : (1 + u) * r * E <= (1 + u) * (1 + u) * (w * E) + (1 + u) * (eta * E)) by lra.
  assert (S2 : (1 + u) * (1 + u) * (w * E) <= (1 + u) * (1 + u) * (1 + D)) by lra.
  assert (S3 : (1 + u) * (1 + u) * (1 + D) <= 1 + D + 6 * u) by lra.
  assert (S4 : (1 + u) * (eta * E) <= 2 * qn n * eta) by lra.
  assert (T1 : (1 - u) * (1 - u) * (w * E) - (1 - u) * (eta * E) <= (1 - u) * r * E) by lra.
  assert (T2 : (1 - u) * (1 - u) * (1 - D) <= (1 - u) * (1 - u) * (w * E)) by lra.
  assert (T3 : 1 - D - 2 * u <= (1 - u) * (1 - u) * (1 - D)) by lra.
  assert (T4 : (1 - u) * (eta * E) <= qn n * eta) by lra.
  assert (Up : P - 1 <= D + 6 * u + 3 * qn n * eta) by lra.
  assert (Dn : - (D + 2 * u + 2 * qn n * eta) <= P - 1) by lra.
  apply Qabs_Qle_condition. rewrite Hdd in Up, Dn. split; lra.
Qed.

End Bounds.
End SoftmaxFacts.

(** C4: the softmax of the output layer, as TensorFlow's CPU kernel computes
    it in float32, gives a probability distribution for every row of logits,
    whatever their magnitude.  The model of float32 is: [rnd] is monotone,
    leaves floats and the integers up to [2^24] unchanged, and rounds a
    result [q] in [[0, float32_max]] with relative error [u] and absolute
    error [eta] (underflow); [fexp] returns floats, lies in [[0,1]] on
    nonpositive arguments and gives exactly [1] at [0].  Then, for a row of
    [n] logits added up along any reduction tree: every argument passed to
    [exp] is [<= 0] (the maximum is subtracted first, so [exp] cannot
    overflow); the row keeps its length; every entry lies in [[0,1]]; and
    the entries sum to [1] within [(n*n + 5)*u + 4*n*eta].  The side
    conditions keep the intermediate sums in range: [n + 1 <= float32_max]
    and [(n-1)*(u*(n+1) + eta) <= 1]; both hold for [n = 10] and float32's
    [u = 2^-24], [eta = 2^-150]. *)
Theorem softmax_row_distribution (rnd fexp : Q -> Q) (u eta : Q)
    (t : Softmax.rtree) (xs : list Q) :
  (forall p q, (p <= q)%Q -> (rnd p <= rnd q)%Q) ->
  (forall q, (rnd (rnd q) == rnd q)%Q) ->
  (forall z, 0 <= z <= 2 ^ 24 -> (rnd (inject_Z z) == inject_Z z)%Q) ->
  (forall d, (rnd (fexp d) == fexp d)%Q) ->
  (forall d, (d <= 0)%Q -> (0 <= fexp d <= 1)%Q) ->
  (forall d, (d == 0)%Q -> (fexp d == 1)%Q) ->
  (0 <= u <= 1)%Q -> (0 <= eta)%Q ->
  (forall q, (0 <= q <= Softmax.float32_max)%Q ->
             (q * (1 - u) - eta <= rnd q <= q * (1 + u) + eta)%Q) ->
  xs <> [] ->
  Permutation (Softmax.leaves t) (seq 0 (length xs)) ->
  (inject_Z (Z.of_nat (length xs)) + 1 <= Softmax.float32_max)%Q ->
  ((inject_Z (Z.of_nat (length xs)) - 1)
     * (u * (inject_Z (Z.of_nat (length xs)) + 1) + eta) <= 1)%Q ->
  Forall (fun d => d <= 0)%Q (Softmax.exp_args rnd xs)
  /\ length (Softmax.softmax_row rnd fexp t xs) = length xs
  /\ Forall (fun p => 0 <= p <= 1)%Q (Softmax.softmax_row rnd fexp t xs)
  /\ (Qabs (Softmax.sumQ (Softmax.softmax_row rnd fexp t xs) - 1)
      <= (inject_Z (Z.of_nat (length xs)) * inject_Z (Z.of_nat (length xs)) + 5) * u
         + 4 * inject_Z (Z.of_nat (length xs)) * eta)%Q.
Proof.
  intros mono idem exact_int exp_float exp_range exp_zero [u0 u1] eta0 err Hne Hperm Hmax HD.
  exact (SoftmaxFacts.softmax_row_bounds rnd fexp u eta mono idem exact_int exp_float
           exp_range exp_zero u0 eta0 err t xs Hne Hperm Hmax HD u1).
Qed.

(** [softmax_row_distribution] with exact arithmetic ([u = eta = 0]), the
    stand-in [exp d = 1/(1-d)] on nonpositive arguments, the logits
    [[1000; -1000; 3]] and the tree [((0 + 1) + 2)]. *)
Lemma softmax_row_distribution_witness :
  Forall (fun d => d <= 0)%Q
    (Softmax.exp_args (fun q => q) [1000; -1000; 3]%Q)
  /\ length (Softmax.softmax_row (fun q => q) (fun d => 1 / (1 - d))%Q
               (Softmax.RNode (Softmax.RNode (Softmax.RLeaf 0) (Softmax.RLeaf 1))
                  (Softmax.RLeaf 2)) [1000; -1000; 3]%Q) = 3%nat
  /\ Forall (fun p => 0 <= p <= 1)%Q
       (Softmax.softmax_row (fun q => q) (fun d => 1 / (1 - d))%Q
          (Softmax.RNode (Softmax.RNode (Softmax.RLeaf 0) (Softmax.RLeaf 1))
             (Softmax.RLeaf 2)) [1000; -1000; 3]%Q)
  /\ (Qabs (Softmax.sumQ
              (Softmax.softmax_row (fun q => q) (fun d => 1 / (1 - d))%Q
                 (Softmax.RNode (Softmax.RNode (Softmax.RLeaf 0) (Softmax.RLeaf 1))
                    (Softmax.RLeaf 2)) [1000; -1000; 3]%Q) - 1)
      <= (inject_Z 3 * inject_Z 3 + 5) * 0 + 4 * inject_Z 3 * 0)%Q.
Proof.
  apply (softmax_row_distribution (fun q => q) (fun d => 1 / (1 - d))%Q 0 0
           (Softmax.RNode (Softmax.RNode (Softmax.RLeaf 0) (Softmax.RLeaf 1))
              (Softmax.RLeaf 2)) [1000; -1000; 3]%Q).
  - intros p q H. exact H.
  - intros q. apply Qeq_refl.
  - intros z _. apply Qeq_refl.
  - intros d. apply Qeq_refl.
  - intros d Hd. split.
    + apply Qle_shift_div_l; [lra | lra].
    + apply Qle_shift_div_r; [lra | lra].
  - intros d Hd. rewrite Hd. reflexivity.
  - split; [apply Qle_bool_iff; reflexivity | apply Qle_bool_iff; reflexivity].
  - apply Qle_refl.
  - intros q Hq. lra.
  - discriminate.
  - apply Permutation_refl.
  - apply Qle_bool_iff. reflexivity.
  - apply Qle_bool_iff. reflexivity.
Defined.
